(** * Mezzanine model mixins, generic-relation fields and the page menu tag

    A shallow embedding of
    - [mezzanine/core/models.py]: [Slugged.save], [Slugged.get_slug],
      [Orderable.with_respect_to], [Orderable.save], [Orderable.delete];
    - [mezzanine/generic/fields.py]: [BaseGenericRelation._related_items_changed]
      and the [related_items_changed] handlers of [CommentsField],
      [KeywordsField] and [RatingField];
    - [mezzanine/pages/templatetags/pages_tags.py]: [page_menu].

    A database table is a finite map from primary key to row, a queryset the
    sub-map selected by its filters, and the framework's exceptions are
    values of [exn]. *)

From Stdlib Require Import ZArith String Ascii List Lia.
From Stdlib Require Import DecimalString DecimalNat Floats.
From stdpp Require Import gmap strings list fin_maps sorting.

Local Open Scope Z_scope.

(** ** The framework: exceptions and querysets *)

Inductive exn :=
  | ObjectDoesNotExist
  | MultipleObjectsReturned
  | ValueError
  | AssertionError
  | AttributeError
  | TypeError
  | OverflowError
  | TemplateSyntaxError.

(** [QuerySet.get]: the single row selected, [ObjectDoesNotExist] when the
    queryset is empty and [MultipleObjectsReturned] when it holds two rows
    or more. *)
Definition qs_get {A} (qs : gmap Z A) : exn + (Z * A) :=
  match map_to_list qs with
  | [] => inl ObjectDoesNotExist
  | [r] => inr r
  | _ :: _ :: _ => inl MultipleObjectsReturned
  end.

(** [QuerySet.exclude(id=k)]. *)
Definition qs_exclude_id {A} (k : Z) (qs : gmap Z A) : gmap Z A :=
  filter (λ kr, kr.1 ≠ k) qs.

(** The key an auto-increment primary key column hands out next: one more
    than the largest key in use. *)
Definition next_id {A} (t : gmap Z A) : Z :=
  1 + map_fold (λ k _ acc, Z.max k acc) 0 t.

(** Python's [str(i)] (and ["%s" % i]) for a natural number. *)
Definition str (i : nat) : string := NilZero.string_of_uint (Nat.to_uint i).

(** [s.rsplit("-", 1)[0]]: what stands before the last ["-"] of [s], and
    [s] itself when it holds none. *)
Fixpoint before_last_dash (s : string) : option string :=
  match s with
  | EmptyString => None
  | String c s' =>
      match before_last_dash s' with
      | Some p => Some (String c p)
      | None => if Ascii.eqb c "-" then Some EmptyString else None
      end
  end.

Definition rsplit_dash_head (s : string) : string :=
  default s (before_last_dash s).

(** ** [Slugged] *)

Module Slugged.

(** The columns of a row of the concrete model. [site] is the column
    [Displayable] adds; [Slugged.save] never reads it. *)
Record Row := { title : string; slug : option string; site : Z }.

(** A model instance: its primary key ([None] until the first save) and
    its fields. *)
Record Instance := { id : option Z; fields : Row }.

Definition set_slug (s : string) (self : Instance) : Instance :=
  {| id := id self;
     fields := {| title := title (fields self); slug := Some s;
                  site := site (fields self) |} |}.

(** What a call of [save] does: it stores the instance or raises.
    [OutOfFuel] stands for a lookup loop that is still running after the
    turns it was given. *)
Inductive outcome :=
  | Saved (t : gmap Z Row) (self : Instance)
  | Raised (e : exn)
  | OutOfFuel.

(** [models.Model.save]: UPDATE-or-INSERT under the instance's key, a
    fresh key when it has none. *)
Definition Model_save (t : gmap Z Row) (self : Instance) : outcome :=
  let k := match id self with Some k => k | None => next_id t end in
  Saved (<[k := fields self]> t) {| id := Some k; fields := fields self |}.

(** [not self.slug]: [None] and the empty string are both falsy. *)
Definition slug_is_empty (self : Instance) : bool :=
  match slug (fields self) with
  | None => true
  | Some s => bool_decide (s = "")
  end.

Section WithSlugify.

(** [mezzanine.utils.urls.slugify]. The table [t] below is the table of
    [base_concrete_model(Slugged, self)]. *)
Variable slugify : string → string.

Definition get_slug (self : Instance) : string :=
  slugify (title (fields self)).

(** [concrete_model.objects.all()], less the instance itself when it
    has an id, narrowed to the rows with the given slug. *)
Definition lookup_qs (t : gmap Z Row) (self_id : option Z) (s : string)
  : gmap Z Row :=
  let qs := t in
  let qs := match self_id with
            | Some k => qs_exclude_id k qs
            | None => qs
            end in
  filter (λ kr, slug kr.2 = Some s) qs.

(** The [while True] loop of [save], entered with the current value of
    [self.slug] and of [i]. *)
Fixpoint slug_loop (fuel : nat) (t : gmap Z Row) (self_id : option Z)
    (cur : string) (i : nat) : option (exn + string) :=
  match fuel with
  | O => None
  | S fuel' =>
      let cur :=
        if (0 <? i)%nat then
          let cur := if (1 <? i)%nat then rsplit_dash_head cur else cur in
          cur +:+ "-" +:+ str i
        else cur in
      match qs_get (lookup_qs t self_id cur) with
      | inl ObjectDoesNotExist => Some (inr cur)
      | inl e => Some (inl e)
      | inr _ => slug_loop fuel' t self_id cur (S i)
      end
  end.

(** [save]. The loop is given one turn more than the table has rows,
    which is as many as it can take. *)
Definition save (t : gmap Z Row) (self : Instance) : outcome :=
  if slug_is_empty self then
    match slug_loop (S (size t)) t (id self) (get_slug self) 0 with
    | None => OutOfFuel
    | Some (inl e) => Raised e
    | Some (inr s) => Model_save t (set_slug s self)
    end
  else Model_save t self.

End WithSlugify.

(** The table a call leaves behind. *)
Definition table_after (t : gmap Z Row) (o : outcome) : gmap Z Row :=
  match o with
  | Saved t' _ => t'
  | _ => t
  end.

(** No two rows on the same site have equal slugs. *)
Definition unique_slugs (t : gmap Z Row) : Prop :=
  ∀ k1 k2 r1 r2,
    t !! k1 = Some r1 → t !! k2 = Some r2 → k1 ≠ k2 →
    site r1 = site r2 → slug r1 ≠ slug r2.

(** The same for a database that takes no two NULLs for equal: no two
    rows on the same site hold the same slug. *)
Definition unique_set_slugs (t : gmap Z Row) : Prop :=
  ∀ k1 k2 r1 r2 s,
    t !! k1 = Some r1 → t !! k2 = Some r2 → k1 ≠ k2 →
    site r1 = site r2 → slug r1 = Some s → slug r2 ≠ Some s.

(** The [i]-th slug the loop tries. *)
Definition candidate (base : string) (i : nat) : string :=
  match i with
  | O => base
  | S _ => base +:+ "-" +:+ str i
  end.

(** The number of rows other than the instance's own that hold slug [s]. *)
Definition holders (t : gmap Z Row) (self_id : option Z) (s : string) : nat :=
  size (lookup_qs t self_id s).

(** The call stored a row whose slug column holds [s]. *)
Definition stores (o : outcome) (s : option string) : Prop :=
  ∃ t' self' k,
    o = Saved t' self' ∧ id self' = Some k ∧ slug <$> t' !! k = Some s.

End Slugged.


(** ** [Orderable] *)

Module Orderable.

(** A row of the concrete model: the [_order] column and the other
    columns by name. A column holds an integer (a foreign key holds the
    key of the row it points to) or NULL. *)
Record Row := { _order : option Z; columns : gmap string (option Z) }.

Record Instance := { id : option Z; fields : Row }.

Definition set_order (o : option Z) (self : Instance) : Instance :=
  {| id := id self;
     fields := {| _order := o; columns := columns (fields self) |} |}.

(** The keyword arguments of [filter]: a dict from lookup name to value. *)
Abbreviation lookup_dict := (gmap string (option Z)).

(** One keyword of a lookup dict, read against a row: [_order__gte=v]
    selects the rows whose [_order] is at least [v] (never a NULL one);
    [name=v] the rows whose column [name] equals [v], which for [None]
    is the test for NULL. *)
Definition keyword_holds (r : Row) (key : string) (v : option Z) : Prop :=
  if decide (key = "_order__gte") then
    match v, _order r with
    | Some n, Some o => n ≤ o
    | _, _ => False
    end
  else columns r !! key = Some v.

Global Instance keyword_holds_dec r key v : Decision (keyword_holds r key v).
Proof.
  unfold keyword_holds. destruct (decide (key = "_order__gte")).
  - destruct v, (_order r); apply _.
  - apply _.
Defined.

Definition row_matches (lookup : lookup_dict) (r : Row) : Prop :=
  map_Forall (keyword_holds r) lookup.

(** [concrete_model.objects.filter], with [lookup] as its keyword
    arguments. *)
Definition qs_filter (lookup : lookup_dict) (t : gmap Z Row) : gmap Z Row :=
  filter (λ kr, row_matches lookup kr.2) t.

(** [QuerySet.update(_order=F("_order") - 1)] over the rows [lookup]
    selects. *)
Definition decrement (r : Row) : Row :=
  {| _order := (λ o, o - 1) <$> _order r; columns := columns r |}.

Definition qs_update_decrement (lookup : lookup_dict) (t : gmap Z Row)
  : gmap Z Row :=
  (λ r, if decide (row_matches lookup r) then decrement r else r) <$> t.

(** [models.Model.save]. *)
Definition Model_save (t : gmap Z Row) (self : Instance)
  : gmap Z Row * Instance :=
  let k := match id self with Some k => k | None => next_id t end in
  (<[k := fields self]> t, {| id := Some k; fields := fields self |}).

(** What a call of [delete] does; each outcome carries the table it
    leaves behind. *)
Inductive outcome :=
  | Deleted (t : gmap Z Row)
  | Raised (e : exn) (t : gmap Z Row).

(** [models.Model.delete]: it asserts that the instance has a primary
    key and removes the row stored under it. *)
Definition Model_delete (t : gmap Z Row) (self : Instance) : outcome :=
  match id self with
  | None => Raised AssertionError t
  | Some k => Deleted (delete k t)
  end.

Section WithMeta.

(** The class attribute [order_with_respect_to] that [OrderableBase]
    copies from the inner [Meta] class, when [Meta] has one. *)
Variable order_with_respect_to : option string.

(** [with_respect_to]: the [AttributeError] of a class without the
    attribute, or of an instance without the field it names, gives the
    empty dict. *)
Definition with_respect_to (self : Instance) : lookup_dict :=
  match order_with_respect_to with
  | None => ∅
  | Some field =>
      match columns (fields self) !! field with
      | Some v => {[ field := v ]}
      | None => ∅
      end
  end.

Definition save (t : gmap Z Row) (self : Instance)
  : gmap Z Row * Instance :=
  let self :=
    match _order (fields self) with
    | None =>
        let lookup := with_respect_to self in
        set_order (Some (Z.of_nat (size (qs_filter lookup t)))) self
    | Some _ => self
    end in
  Model_save t self.

(** A lookup other than an exact match refuses [None] as its value:
    [filter] raises [ValueError] for [_order__gte=None]. *)
Definition delete (t : gmap Z Row) (self : Instance) : outcome :=
  let lookup := with_respect_to self in
  let lookup := <["_order__gte" := _order (fields self)]> lookup in
  match _order (fields self) with
  | None => Raised ValueError t
  | Some _ =>
      let t := qs_update_decrement lookup t in
      Model_delete t self
  end.

(** The rows [self] is ordered among. *)
Definition siblings (t : gmap Z Row) (self : Instance) : gmap Z Row :=
  qs_filter (with_respect_to self) t.

End WithMeta.

(** [r]'s [_order] is not NULL and at least [p]. *)
Definition order_at_least (p : Z) (r : Row) : Prop :=
  match _order r with
  | Some o => p ≤ o
  | None => False
  end.

Global Instance order_at_least_dec p r : Decision (order_at_least p r).
Proof. unfold order_at_least. destruct (_order r); apply _. Defined.

(** The [_order] values of a queryset, as a bag. *)
Definition orders (qs : gmap Z Row) : list (option Z) :=
  (λ kr, _order kr.2) <$> map_to_list qs.

(** What the renumbering of [delete] makes of an [_order] value. *)
Definition shift (p : Z) (o : option Z) : option Z :=
  match o with
  | Some z => if decide (p ≤ z) then Some (z - 1) else Some z
  | None => None
  end.

(** The values [0 .. n-1]. *)
Definition range (n : nat) : list (option Z) :=
  (λ i, Some (Z.of_nat i)) <$> seq 0 n.

End Orderable.

(** ** Generic relations: [mezzanine/generic/fields.py] *)

(** A state-and-exception monad: a computation reads and writes a state
    [S] and either returns or raises. *)
Definition M (S A : Type) : Type := S → (exn + A) * S.

Global Instance M_ret {S} : MRet (M S) := λ A a s, (inr a, s).

Global Instance M_bind {S} : MBind (M S) := λ A B k m s,
  match m s with
  | (inr a, s') => k a s'
  | (inl e, s') => (inl e, s')
  end.

Definition raise {S A} (e : exn) : M S A := λ s, (inl e, s).
Definition gets {S A} (f : S → A) : M S A := λ s, (inr (f s), s).
Definition modify {S} (f : S → S) : M S unit := λ s, (inr (), f s).

(** Python's [template % arg] for a template with one [%s]. *)
Fixpoint format1 (template arg : string) : string :=
  match template with
  | String "%" (String "s" rest) => arg +:+ rest
  | String c rest => String c (format1 rest arg)
  | EmptyString => EmptyString
  end.

(** Python's conversion of an integer to a float: the nearest double, ties
    to even, and [OverflowError] beyond the range of doubles. *)
Definition float_of_Z (z : Z) : float :=
  SF2Prim (SpecFloat.binary_normalize prec emax z 0 false).

Definition python_float {S} (z : Z) : M S float :=
  let f := float_of_Z z in
  if PrimFloat.is_infinity f then raise OverflowError else mret f.

Module Generic.

(** Model classes, by name. *)
Abbreviation class := string (only parsing).

(** The values an attribute of a model instance holds. *)
Inductive attr_value :=
  | VNone
  | VInt (z : Z)
  | VFloat (f : float)
  | VUnicode (s : string).

(** Python's [v != s] for a unicode string [s]. *)
Definition ne_unicode (v : attr_value) (s : string) : bool :=
  match v with
  | VUnicode s' => negb (bool_decide (s' = s))
  | _ => true
  end.

(** An instance of the model a field is applied to. *)
Record Instance := { cls : class; id : Z; attrs : gmap string attr_value }.

Definition setattr (name : string) (v : attr_value) (instance : Instance)
  : Instance :=
  {| cls := cls instance; id := id instance;
     attrs := <[name := v]> (attrs instance) |}.

(** A row of a generic-relation side table: the type and id pair of the
    object it belongs to, and the columns of its own. *)
Record Related (P : Type) :=
  { content_type : class; object_pk : Z; payload : P }.
Arguments content_type {P}.
Arguments object_pk {P}.
Arguments payload {P}.

(** The related manager of an instance: the rows it iterates over, and
    what [count_queryset()] returns when the manager has that method. *)
Record Manager (P : Type) :=
  { all : list (Related P); count_queryset : option Z }.
Arguments all {P}.
Arguments count_queryset {P}.

Inductive event :=
  | Fetched (pk : Z)
  | Saved (pk : Z).

(** The database: the table of the model the field is applied to, the
    side table, and the queries and writes made so far (latest first). *)
Record World (P : Type) :=
  { objects : gmap Z (gmap string attr_value);
    related : list (Related P);
    log : list event }.
Arguments objects {P}.
Arguments related {P}.
Arguments log {P}.

(** What a signal passes as [kwargs["instance"]]: the class of the saved
    or deleted row and, as far as it has them, its [object_pk] and the
    model class its [content_type] refers to ([None] for a content type
    whose model is gone). *)
Record Signalled :=
  { sender_class : class;
    for_model : option class;
    sender_object_pk : Z }.

Section WithRows.

Context {P : Type}.

(** [instance.save()]. *)
Definition save (instance : Instance) : M (World P) unit :=
  modify (λ w,
    {| objects := <[id instance := attrs instance]> (objects w);
       related := related w;
       log := Saved (id instance) :: log w |}).

Definition fetched (pk : Z) (w : World P) : World P :=
  {| objects := objects w; related := related w;
     log := Fetched pk :: log w |}.

(** [model.objects.get(id=pk)]. *)
Definition objects_get (model : class) (pk : Z) : M (World P) Instance :=
  λ w,
    let w' := fetched pk w in
    match objects w !! pk with
    | Some a => (inr {| cls := model; id := pk; attrs := a |}, w')
    | None => (inl ObjectDoesNotExist, w')
    end.

(** A field: the attributes [contribute_to_class] and the relation
    give it, the [get_content_model] method of its model and the
    [count_queryset] method of the related manager where they exist,
    and its [related_items_changed] method. *)
Record Field :=
  { rel_to : class;
    model : class;
    related_field_name : string;
    get_content_model : option (Instance → Instance);
    manager_count_queryset : option (list (Related P) → Z);
    related_items_changed :
      string → Instance → Manager P → M (World P) Instance }.

(** [getattr(instance, self.related_field_name)]. *)
Definition related_manager_of (self : Field) (instance : Instance)
    (w : World P) : Manager P :=
  let rows :=
    filter (λ r, content_type r = cls instance ∧ object_pk r = id instance)
           (related w) in
  {| all := rows;
     count_queryset := (λ m, m rows) <$> manager_count_queryset self |}.

Section Dispatch.

(** [issubclass] on model classes. *)
Variable issubclass : class → class → bool.

Definition _related_items_changed (self : Field) (kwargs : Signalled)
  : M (World P) unit :=
  if negb (issubclass (sender_class kwargs) (rel_to self)) then mret ()
  else
    match for_model kwargs with
    | None => raise TypeError
    | Some for_model =>
        if issubclass for_model (model self) then
          instance ← objects_get (model self) (sender_object_pk kwargs);
          let instance :=
            match get_content_model self with
            | Some content_model => content_model instance
            | None => instance
            end in
          related_manager ← gets (related_manager_of self instance);
          _ ← related_items_changed self (related_field_name self)
                instance related_manager;
          mret ()
        else mret ()
    end.

End Dispatch.

End WithRows.

Arguments Field : clear implicits.

(** *** [CommentsField] *)

Definition CommentsField_related_items_changed {P}
    (related_field_name : string) (instance : Instance)
    (related_manager : Manager P) : M (World P) Instance :=
  let count :=
    match count_queryset related_manager with
    | Some n => n
    | None => Z.of_nat (length (all related_manager))
    end in
  let count_field_name := format1 "%s_count" related_field_name in
  let instance := setattr count_field_name (VInt count) instance in
  _ ← save instance;
  mret instance.

(** *** [KeywordsField] *)

(** Modelled from the spec: the [Keyword] and [AssignedKeyword] models of
    [mezzanine/generic/models.py]. A keyword is a [Slugged] row and has a
    name, its [title], which is what [Slugged.__unicode__] returns. *)
Record Keyword := { title : string }.
Record AssignedKeyword := { keyword : Keyword }.

Definition unicode (k : Keyword) : string := title k.

Definition KeywordsField_related_items_changed
    (related_field_name : string) (instance : Instance)
    (related_manager : Manager AssignedKeyword)
  : M (World AssignedKeyword) Instance :=
  let assigned := all related_manager in
  let keywords :=
    String.concat " " ((λ a, unicode (keyword (payload a))) <$> assigned) in
  let string_field_name := format1 "%s_string" related_field_name in
  match attrs instance !! string_field_name with
  | None => raise AttributeError
  | Some current =>
      if ne_unicode current keywords then
        let instance := setattr string_field_name (VUnicode keywords) instance in
        _ ← save instance;
        mret instance
      else mret instance
  end.

(** *** [RatingField] *)

Record Rating := { value : Z }.

Definition sum (l : list Z) : Z := foldr Z.add 0 l.

Definition RatingField_related_items_changed
    (related_field_name : string) (instance : Instance)
    (related_manager : Manager Rating) : M (World Rating) Instance :=
  let ratings := (λ r, value (payload r)) <$> all related_manager in
  let count := Z.of_nat (length ratings) in
  average ←
    (if decide (0 < count) then
       total ← python_float (sum ratings);
       mret (VFloat (total / float_of_Z count))
     else mret (VInt 0));
  let instance := setattr (format1 "%s_count" related_field_name)
                          (VInt count) instance in
  let instance := setattr (format1 "%s_average" related_field_name)
                          average instance in
  _ ← save instance;
  mret instance.

(** *** The three fields as instances of [Field]

    [related_model] names the class of the side table; the model, the
    attribute name and the two optional methods come from the class the
    field is declared in. *)

Definition CommentsField {P} (model name : string)
    (get_content_model : option (Instance → Instance))
    (manager_count_queryset : option (list (Related P) → Z)) : Field P :=
  {| rel_to := "generic.ThreadedComment";
     model := model;
     related_field_name := name;
     get_content_model := get_content_model;
     manager_count_queryset := manager_count_queryset;
     related_items_changed := CommentsField_related_items_changed |}.

Definition KeywordsField (model name : string)
    (get_content_model : option (Instance → Instance))
  : Field AssignedKeyword :=
  {| rel_to := "generic.AssignedKeyword";
     model := model;
     related_field_name := name;
     get_content_model := get_content_model;
     manager_count_queryset := None;
     related_items_changed := KeywordsField_related_items_changed |}.

Definition RatingField (model name : string)
    (get_content_model : option (Instance → Instance)) : Field Rating :=
  {| rel_to := "generic.Rating";
     model := model;
     related_field_name := name;
     get_content_model := get_content_model;
     manager_count_queryset := None;
     related_items_changed := RatingField_related_items_changed |}.

(** The instance the handler of [self] is run on for a signal about
    object [pk] whose stored attributes are [a]. *)
Definition handled_instance {P} (self : Field P) (pk : Z)
    (a : gmap string attr_value) : Instance :=
  let instance := {| cls := model self; id := pk; attrs := a |} in
  match get_content_model self with
  | Some content_model => content_model instance
  | None => instance
  end.

(** The rows related to [instance], in the side table's order. *)
Definition related_rows {P} (instance : Instance) (w : World P)
  : list (Related P) :=
  filter (λ r, content_type r = cls instance ∧ object_pk r = id instance)
         (related w).

(** What [save] makes of the database. *)
Definition saved {P} (instance : Instance) (w : World P) : World P :=
  {| objects := <[id instance := attrs instance]> (objects w);
     related := related w;
     log := Saved (id instance) :: log w |}.

(** The names of the keywords of the given rows, joined by single
    spaces. *)
Definition keywords_string (rows : list (Related AssignedKeyword)) : string :=
  String.concat " " ((λ a, title (keyword (payload a))) <$> rows).

End Generic.

(** ** The [page_menu] template tag *)

Module PageMenu.

(** The columns of a [Page] row the tag reads. *)
Record Row := { id : Z; parent_id : option Z; _order : option Z }.

(** A page object: the row it was loaded from and the attributes set on
    it afterwards. [branch_level] is absent until the tag sets it;
    [menu_helpers] stands for what [set_menu_helpers] assigns. *)
Record Page :=
  { row : Row; branch_level : option Z; menu_helpers : option string }.

Definition loaded (r : Row) : Page :=
  {| row := r; branch_level := None; menu_helpers := None |}.

Definition set_branch_level (level : Z) (page : Page) : Page :=
  {| row := row page; branch_level := Some level;
     menu_helpers := menu_helpers page |}.

(** Page objects live in a heap and are named by their position in it:
    the lists of the menu dict and the tag's argument share them. *)
Abbreviation loc := nat (only parsing).

Record Request := { user : option string; path : string }.

(** The keys of the template context the tag reads or writes. *)
Record Context :=
  { menu_template_name : option string;
    menu_pages : option (gmap (option Z) (list loc));
    request : option Request;
    on_home : option bool;
    context_branch_level : option Z;
    page_branch : option (list loc) }.

Definition set_menu_template_name (v : string) (c : Context) : Context :=
  {| menu_template_name := Some v; menu_pages := menu_pages c;
     request := request c; on_home := on_home c;
     context_branch_level := context_branch_level c;
     page_branch := page_branch c |}.

Definition set_menu_pages (v : gmap (option Z) (list loc)) (c : Context)
  : Context :=
  {| menu_template_name := menu_template_name c; menu_pages := Some v;
     request := request c; on_home := on_home c;
     context_branch_level := context_branch_level c;
     page_branch := page_branch c |}.

Definition set_on_home (v : bool) (c : Context) : Context :=
  {| menu_template_name := menu_template_name c; menu_pages := menu_pages c;
     request := request c; on_home := Some v;
     context_branch_level := context_branch_level c;
     page_branch := page_branch c |}.

Definition set_context_branch_level (v : Z) (c : Context) : Context :=
  {| menu_template_name := menu_template_name c; menu_pages := menu_pages c;
     request := request c; on_home := on_home c;
     context_branch_level := Some v;
     page_branch := page_branch c |}.

Definition set_page_branch (v : list loc) (c : Context) : Context :=
  {| menu_template_name := menu_template_name c; menu_pages := menu_pages c;
     request := request c; on_home := on_home c;
     context_branch_level := context_branch_level c;
     page_branch := Some v |}.

(** What a part of the token resolves to in the context. *)
Inductive part :=
  | Unicode (s : string)
  | PageRef (l : loc)
  | Other.

(** The first loop: the last string among the parts is the template
    name and the last page the parent page. The page is read through
    its reference here; no page object that exists at this point is
    written before [branch_level] is read from it. *)
Definition resolve_parts (heap : list Page) (parts : list part)
  : option string * option Page :=
  foldl (λ '(template_name, parent_page) part,
           match part with
           | Unicode s => (Some s, parent_page)
           | PageRef l =>
               match heap !! l with
               | Some page => (template_name, Some page)
               | None => (template_name, parent_page)
               end
           | Other => (template_name, parent_page)
           end)
        (None, None) parts.

(** The loop that sets [branch_level] on every page of the branch. *)
Definition level_branch (level : Z) (branch : list loc) (heap : list Page)
  : list Page :=
  foldl (λ heap l, alter (set_branch_level level) l heap) heap branch.

(** The user and the path of the request in the context; no user and
    the empty path when the context has no request. *)
Definition user_and_slug (context : Context) : option string * string :=
  match request context with
  | Some r => (user r, path r)
  | None => (None, "")
  end.

Section WithSite.

(** [Page.objects.published(for_user=user)], with [select_related]
    and [order_by("_order")] applied: the rows, in the order the
    query returns them. *)
Variable published_by_order : option string → list Row.

(** [Page.set_menu_helpers]. *)
Variable set_menu_helpers : string → Page → Page.

(** [reverse("home")]. *)
Variable home_url : string.

(** The loop that fills the [defaultdict]: each page is loaded as a
    new object and appended to the list of its parent's id. *)
Definition collect_pages (slug : string) (rows : list Row)
    (heap : list Page) : gmap (option Z) (list loc) * list Page :=
  foldl (λ '(pages, heap) r,
           let page := set_menu_helpers slug (loaded r) in
           let l := length heap in
           let key := parent_id (row page) in
           (<[key := default [] (pages !! key) ++ [l]]> pages,
            heap ++ [page]))
        (∅, heap) rows.

(** [page_menu], up to the rendering of the template: it returns the
    context and the page objects the template is rendered with, or
    raises. The template calls the tag again for the pages of the branch,
    with this context and these objects. *)
Definition page_menu (context : Context) (heap : list Page)
    (parts : list part) : exn + (Context * list Page) :=
  let '(template_name, parent_page) := resolve_parts heap parts in
  let template_name :=
    match template_name with
    | Some name => Some name
    | None => menu_template_name context
    end in
  match template_name with
  | None => inl TemplateSyntaxError
  | Some template_name =>
      let context := set_menu_template_name template_name context in
      let '(context, heap) :=
        match menu_pages context with
        | Some _ => (context, heap)
        | None =>
            let '(user, slug) := user_and_slug context in
            let '(pages, heap) :=
              collect_pages slug (published_by_order user) heap in
            let context := set_menu_pages pages context in
            let context :=
              set_on_home (bool_decide (slug = home_url)) context in
            (context, heap)
        end in
      let context := set_context_branch_level 0 context in
      let '(context, parent_page) :=
        match parent_page with
        | Some page =>
            (set_context_branch_level
               (default 0 (branch_level page) + 1) context,
             Some (id (row page)))
        | None => (context, None)
        end in
      let branch :=
        default [] (pages ← menu_pages context; pages !! parent_page) in
      let context := set_page_branch branch context in
      let heap :=
        level_branch (default 0 (context_branch_level context))
                     branch heap in
      inr (context, heap)
  end.

End WithSite.

(** The [has_children] attribute the tag gives each page it loads: a
    closure that asks, when a template calls it, whether the page's id
    is a key of the menu dict. *)
Definition has_children (context : Context) (page_id : Z) : option bool :=
  pages ← menu_pages context;
  Some (bool_decide (is_Some (pages !! Some page_id))).

(** The places [ls] of the heap hold the page objects [ps]. *)
Definition holds (heap : list Page) (ls : list loc) (ps : list Page) : Prop :=
  Forall2 (λ l p, heap !! l = Some p) ls ps.

(** The rows of the page objects at the given places of the heap. *)
Definition rows_at (heap : list Page) (ls : list loc) : list (option Row) :=
  (λ l, row <$> heap !! l) <$> ls.

(** The level the tag gives the pages of the branch of [parent_page]. *)
Definition level_under (parent_page : option Page) : Z :=
  match parent_page with
  | Some page => default 0 (branch_level page) + 1
  | None => 0
  end.

End PageMenu.

(** ** The comment tags: [mezzanine/generic/templatetags/comment_tags.py] *)

Module CommentTags.

(** The columns of a [ThreadedComment] row the tags read. *)
Record Comment := { id : Z; replied_to_id : option Z }.

Global Instance Comment_eq_dec : EqDecision Comment.
Proof. solve_decision. Defined.

Record Request := { is_staff : bool; POST : gmap string string }.

(** The keys of the template context [comment_thread] reads or writes. *)
Record Context :=
  { all_comments : option (gmap (option Z) (list Comment));
    request : option Request;
    comments_for_thread : option (list Comment);
    no_comments : option bool;
    replied_to : option Z }.

(** What [comment_thread] is called with: on the first call the object
    the comments belong to, afterwards a comment of the thread. The tag
    reads its [id] and its [comments] manager. *)
Record Parent := { parent_id : option Z; comments : list Comment }.

(** What the tag raises: [int] refuses the posted value, or the name
    [comments] is read in a call that never bound it. *)
Inductive error :=
  | PostedValueError
  | CommentsNameError.

(** The comments the first call groups: all of them for a request of a
    member of staff, the visible ones otherwise. *)
Definition comments_shown (visible : list Comment → list Comment)
    (context : Context) (parent : Parent) : list Comment :=
  match request context with
  | Some r => if is_staff r then comments parent
              else visible (comments parent)
  | None => visible (comments parent)
  end.

(** The loop that fills the [defaultdict]. *)
Definition group_by_parent (queryset : list Comment)
  : gmap (option Z) (list Comment) :=
  foldl (λ comments comment,
           let key := replied_to_id comment in
           <[key := default [] (comments !! key) ++ [comment]]> comments)
        ∅ queryset.

Section WithManager.

(** [CommentManager.visible], applied to the comments of an object. *)
Variable visible : list Comment → list Comment.

(** Python's [int] on a posted string; [None] for [ValueError]. *)
Variable int : string → option Z.

(** [int(context["request"].POST["replied_to"])], and 0 for the
    [KeyError] of a context without a request or a request without that
    value. *)
Definition posted_replied_to (context : Context) : error + Z :=
  match request context ≫= (λ r, POST r !! "replied_to") with
  | Some posted =>
      match int posted with
      | Some n => inr n
      | None => inl PostedValueError
      end
  | None => inr 0
  end.

(** [comment_thread]. In a call that finds [all_comments] in the context
    the name [comments] is unbound: reading it, which happens when the
    [id] of [parent] is [None], raises [UnboundLocalError], a
    [NameError]. *)
Definition comment_thread (context : Context) (parent : Parent)
  : error + Context :=
  let '(context, parent, comments) :=
    match all_comments context with
    | None =>
        let comments_queryset := comments_shown visible context parent in
        let comments := group_by_parent comments_queryset in
        ({| all_comments := Some comments; request := request context;
            comments_for_thread := comments_for_thread context;
            no_comments := no_comments context;
            replied_to := replied_to context |},
         None, Some comments)
    | Some _ => (context, parent_id parent, None)
    end in
  match posted_replied_to context with
  | inl e => inl e
  | inr replied =>
      let thread :=
        default [] (all ← all_comments context; all !! parent) in
      let none :=
        match parent with
        | Some _ => inr false
        | None =>
            match comments with
            | Some comments => inr (bool_decide (comments = ∅))
            | None => inl CommentsNameError
            end
        end in
      match none with
      | inl e => inl e
      | inr none =>
          inr {| all_comments := all_comments context;
                 request := request context;
                 comments_for_thread := Some thread;
                 no_comments := Some none;
                 replied_to := Some replied |}
      end
  end.

End WithManager.

(** [recent_comments]: the rows of the comments table by descending id,
    cut after [latest]. A queryset refuses a negative bound of a slice
    with an [AssertionError]. *)
Definition newer {A} (x y : Z * A) : Prop := y.1 ≤ x.1.

Global Instance newer_dec {A} : RelDecision (@newer A).
Proof. intros x y. unfold newer. apply _. Defined.

Definition recent_comments {A} (table : gmap Z A) (latest : Z)
  : exn + list (Z * A) :=
  let comments := merge_sort newer (map_to_list table) in
  if decide (latest < 0) then inl AssertionError
  else inr (take (Z.to_nat latest) comments).

End CommentTags.

(** ** [Displayable.description_from_content] *)

Module Displayable.

(** A field of the model, as the method sees it: its name, whether it is
    an instance of [RichTextField] and of [models.TextField], and the
    value the instance holds for it ([None] for a null). *)
Record Field :=
  { name : string;
    is_rich_text : bool;
    is_text : bool;
    value : option string }.

(** Python's truth of a string or [None]. *)
Definition truthy (v : option string) : bool :=
  match v with
  | Some s => negb (bool_decide (s = ""))
  | None => false
  end.

(** The inner loop over [self._meta.fields] for one field type: every
    field of the type, other than [description], is read into
    [description], and the loop breaks at the first that holds text. *)
Fixpoint read_fields (of_type : Field → bool) (fields : list Field)
    (description : option string) : option string :=
  match fields with
  | [] => description
  | field :: fields =>
      if of_type field && negb (bool_decide (name field = "description")) then
        let description := value field in
        if truthy description then description
        else read_fields of_type fields description
      else read_fields of_type fields description
  end.

(** The outer loop, over [RichTextField] and then [models.TextField], and
    the fall back to the title. *)
Definition content_or_title (fields : list Field) (title : string) : string :=
  let description := Some "" in
  let description :=
    foldl (λ description of_type,
             if truthy description then description
             else read_fields of_type fields description)
          description [is_rich_text; is_text] in
  if truthy description then default "" description else title.

(** [description.split(end)] cuts at every [end]; its first piece and the
    rest after the first [end], when [end] occurs ([end in description]). *)
Fixpoint split_first (sep s : string) : option (string * string) :=
  if String.prefix sep s then
    Some ("", String.substring (String.length sep)
                (String.length s - String.length sep) s)
  else
    match s with
    | EmptyString => None
    | String c s' =>
        match split_first sep s' with
        | Some (before, after) => Some (String c before, after)
        | None => None
        end
    end.

(** The paragraph and sentence ends, in the order they are tried. *)
Definition ends : list string :=
  ["</p>"; "<br />"; String "010" ""; ". "].

Section WithTruncate.

(** [django.template.defaultfilters.truncatewords_html]. *)
Variable truncatewords_html : string → nat → string.

(** The [for ... else] over the ends: cut after the first end that
    occurs, or truncate to 100 words when none does. *)
Fixpoint first_paragraph_of (ends : list string) (description : string)
  : string :=
  match ends with
  | [] => truncatewords_html description 100
  | e :: ends =>
      match split_first e description with
      | Some (before, _) => before +:+ e
      | None => first_paragraph_of ends description
      end
  end.

Definition description_from_content (fields : list Field) (title : string)
  : string :=
  first_paragraph_of ends (content_or_title fields title).

End WithTruncate.

(** [e] occurs in [s]. *)
Definition occurs (e s : string) : Prop :=
  ∃ before after, s = before +:+ e +:+ after.

(** The first field, in the order of the model, that is of the given
    type, is not [description] and holds text. *)
Definition first_filled (of_type : Field → bool) (fields : list Field)
  : option string :=
  match list_find (λ f, of_type f = true ∧ name f ≠ "description" ∧
                        truthy (value f) = true) fields with
  | Some (_, f) => value f
  | None => None
  end.

End Displayable.

(** ** Concrete tables, instances and signals *)

Module Examples.

(** On a title that is a slug already [slugify] returns the title. *)
Definition slugify_plain (s : string) : string := s.

Definition flat_page (t : string) (s : option string) (site : Z)
  : Slugged.Row :=
  {| Slugged.title := t; Slugged.slug := s; Slugged.site := site |}.

(** Two rows of one site with distinct slugs. *)
Definition slug_table : gmap Z Slugged.Row :=
  {[ 1 := flat_page "about" (Some "about") 1;
     2 := flat_page "about" (Some "about-1") 1 ]}.

(** A new instance without a slug. *)
Definition unslugged : Slugged.Instance :=
  {| Slugged.id := None; Slugged.fields := flat_page "about" None 1 |}.

(** A new instance whose slug was typed in. *)
Definition slug_typed_in : Slugged.Instance :=
  {| Slugged.id := None;
     Slugged.fields := flat_page "about (copy)" (Some "about") 1 |}.

(** The same slug on two sites. *)
Definition two_sites : gmap Z Slugged.Row :=
  {[ 1 := flat_page "about" (Some "about") 1;
     2 := flat_page "about" (Some "about") 2 ]}.

Definition page (o : Z) (parent : option Z) : Orderable.Row :=
  {| Orderable._order := Some o;
     Orderable.columns := {[ "parent" := parent ]} |}.

(** Three top-level pages and two children of page 1. *)
Definition page_table : gmap Z Orderable.Row :=
  {[ 1 := page 0 None; 2 := page 1 None; 3 := page 0 (Some 1);
     4 := page 2 None; 5 := page 1 (Some 1) ]}.

Definition second_page : Orderable.Instance :=
  {| Orderable.id := Some 2; Orderable.fields := page 1 None |}.

Definition exact_class (a b : string) : bool := bool_decide (a = b).

Definition post_attrs : gmap string Generic.attr_value :=
  {[ "comments_count" := Generic.VInt 0;
     "keywords_string" := Generic.VUnicode "";
     "rating_count" := Generic.VInt 0;
     "rating_average" := Generic.VInt 0 ]}.

Definition row_of {P} (pk : Z) (p : P) : Generic.Related P :=
  {| Generic.content_type := "blog.BlogPost"; Generic.object_pk := pk;
     Generic.payload := p |}.

Definition world_of {P} (rows : list (Generic.Related P))
  : Generic.World P :=
  {| Generic.objects := {[ 7 := post_attrs ]};
     Generic.related := rows;
     Generic.log := [] |}.

Definition comments : Generic.World unit :=
  world_of [row_of 7 (); row_of 8 (); row_of 7 ()].

Definition keyword_named (s : string) : Generic.AssignedKeyword :=
  {| Generic.keyword := {| Generic.title := s |} |}.

Definition keywords : Generic.World Generic.AssignedKeyword :=
  world_of [row_of 7 (keyword_named "django"); row_of 8 (keyword_named "cms");
            row_of 7 (keyword_named "python")].

Definition ratings : Generic.World Generic.Rating :=
  world_of [row_of 7 {| Generic.value := 4 |};
            row_of 8 {| Generic.value := 1 |};
            row_of 7 {| Generic.value := 3 |}].

(** The signal for a side-table row of class [c] that belongs to blog
    post 7. *)
Definition about_post_7 (c : string) : Generic.Signalled :=
  {| Generic.sender_class := c;
     Generic.for_model := Some "blog.BlogPost";
     Generic.sender_object_pk := 7 |}.

(** The signal the save of a blog post itself sends. *)
Definition post_saved : Generic.Signalled :=
  {| Generic.sender_class := "blog.BlogPost";
     Generic.for_model := None;
     Generic.sender_object_pk := 0 |}.

Definition published_pages (_ : option string) : list PageMenu.Row :=
  [ {| PageMenu.id := 1; PageMenu.parent_id := None;
       PageMenu._order := Some 0 |};
    {| PageMenu.id := 3; PageMenu.parent_id := Some 1;
       PageMenu._order := Some 0 |};
    {| PageMenu.id := 2; PageMenu.parent_id := None;
       PageMenu._order := Some 1 |};
    {| PageMenu.id := 4; PageMenu.parent_id := Some 1;
       PageMenu._order := Some 1 |} ].

Definition note_slug (slug : string) (p : PageMenu.Page) : PageMenu.Page :=
  {| PageMenu.row := PageMenu.row p;
     PageMenu.branch_level := PageMenu.branch_level p;
     PageMenu.menu_helpers := Some slug |}.

Definition fresh_context : PageMenu.Context :=
  {| PageMenu.menu_template_name := None;
     PageMenu.menu_pages := None;
     PageMenu.request :=
       Some {| PageMenu.user := None; PageMenu.path := "/about/" |};
     PageMenu.on_home := None;
     PageMenu.context_branch_level := None;
     PageMenu.page_branch := None |}.

End Examples.

(** ** Concrete comments and content fields *)

Module MoreExamples.

Definition comment (i : Z) (reply_to : option Z) : CommentTags.Comment :=
  {| CommentTags.id := i; CommentTags.replied_to_id := reply_to |}.

(** A post with two comments and a reply to the first. *)
Definition post : CommentTags.Parent :=
  {| CommentTags.parent_id := Some 7;
     CommentTags.comments := [comment 1 None; comment 2 (Some 1);
                              comment 3 None] |}.

(** Comment 3 is hidden from readers who are not staff. *)
Definition hide_third (l : list CommentTags.Comment)
  : list CommentTags.Comment :=
  filter (λ c, CommentTags.id c ≠ 3) l.

Definition reader_context : CommentTags.Context :=
  {| CommentTags.all_comments := None;
     CommentTags.request :=
       Some {| CommentTags.is_staff := false; CommentTags.POST := ∅ |};
     CommentTags.comments_for_thread := None;
     CommentTags.no_comments := None;
     CommentTags.replied_to := None |}.

Definition no_int (_ : string) : option Z := None.

Definition comment_table : gmap Z string :=
  {[ 3 := "third"; 10 := "tenth"; 1 := "first"; 7 := "seventh" ]}.

Definition truncate_none (s : string) (_ : nat) : string := s.

Definition content_fields : list Displayable.Field :=
  [ {| Displayable.name := "description"; Displayable.is_rich_text := false;
       Displayable.is_text := true; Displayable.value := Some "old" |};
    {| Displayable.name := "summary"; Displayable.is_rich_text := false;
       Displayable.is_text := true;
       Displayable.value := Some "Plain. Text" |};
    {| Displayable.name := "content"; Displayable.is_rich_text := true;
       Displayable.is_text := true;
       Displayable.value := Some "<p>Rich. Text</p><p>More</p>" |} ].

End MoreExamples.
(** ** Strings *)

Lemma append_nil_l (s : string) : "" +:+ s = s.
Proof. reflexivity. Qed.

Lemma append_cons (c : ascii) (s1 s2 : string) :
  String c s1 +:+ s2 = String c (s1 +:+ s2).
Proof. reflexivity. Qed.

Lemma before_last_dash_app (s1 s2 : string) :
  before_last_dash s2 = None →
  before_last_dash (s1 +:+ "-" +:+ s2) = Some s1.
Proof.
  intros Hs2. induction s1 as [|c s1 IH].
  - rewrite append_nil_l, append_cons, append_nil_l. simpl. by rewrite Hs2.
  - rewrite append_cons. simpl. by rewrite IH.
Qed.

Lemma before_last_dash_digits (d : Decimal.uint) :
  before_last_dash (NilEmpty.string_of_uint d) = None.
Proof. induction d; simpl; by rewrite ?IHd. Qed.

Lemma before_last_dash_str (i : nat) : before_last_dash (str i) = None.
Proof.
  unfold str, NilZero.string_of_uint.
  destruct (Nat.to_uint i) eqn:E; try done; rewrite <- E; apply before_last_dash_digits.
Qed.

Lemma rsplit_dash_head_app (base : string) (i : nat) :
  rsplit_dash_head (base +:+ "-" +:+ str i) = base.
Proof.
  unfold rsplit_dash_head.
  by rewrite before_last_dash_app by apply before_last_dash_str.
Qed.

Lemma to_uint_nonnil (n : nat) : Nat.to_uint n ≠ Decimal.Nil.
Proof.
  rewrite <- (DecimalNat.Unsigned.of_to n) at 1.
  rewrite DecimalNat.Unsigned.to_of. apply DecimalFacts.unorm_nonnil.
Qed.

Lemma str_inj (i j : nat) : str i = str j → i = j.
Proof.
  intros H. apply DecimalNat.Unsigned.to_uint_inj.
  apply (f_equal NilZero.uint_of_string) in H. unfold str in H.
  rewrite !NilZero.usu in H by apply to_uint_nonnil. congruence.
Qed.
(** ** Querysets *)

Lemma qs_get_size {A} (qs : gmap Z A) :
  match qs_get qs with
  | inl ObjectDoesNotExist => size qs = 0%nat
  | inl MultipleObjectsReturned => (2 ≤ size qs)%nat
  | inl _ => False
  | inr (k, r) => size qs = 1%nat ∧ qs !! k = Some r
  end.
Proof.
  unfold qs_get. rewrite <- length_map_to_list.
  destruct (map_to_list qs) as [|[k r] [|? ?]] eqn:E; simpl; try lia.
  split; [done|]. apply elem_of_map_to_list. rewrite E. set_solver.
Qed.

Lemma next_id_fresh {A} (t : gmap Z A) : t !! next_id t = None.
Proof.
  unfold next_id.
  assert (H : ∀ k, is_Some (t !! k) → k ≤ map_fold (λ k _ acc, Z.max k acc) 0 t).
  { apply (map_fold_weak_ind (λ b m, ∀ k, is_Some (m !! k) → k ≤ b)).
    - intros k [? H]. by rewrite lookup_empty in H.
    - intros i x m b Hi IH k Hk. destruct (decide (i = k)) as [->|Hne].
      + lia.
      + rewrite lookup_insert_ne in Hk by done. specialize (IH k Hk). lia. }
  destruct (t !! (1 + _)) eqn:E; [|done].
  specialize (H _ (mk_is_Some _ _ E)). lia.
Qed.

Section SluggedFacts.

Import Slugged.

Lemma candidate_next (base : string) (i : nat) :
  (if (0 <? S i)%nat then
     (if (1 <? S i)%nat then rsplit_dash_head (candidate base i)
      else candidate base i) +:+ "-" +:+ str (S i)
   else candidate base i) = candidate base (S i).
Proof.
  destruct i as [|i]; [done|].
  change (rsplit_dash_head (candidate base (S i)) +:+ "-" +:+ str (S (S i))
          = base +:+ "-" +:+ str (S (S i))).
  unfold candidate. by rewrite rsplit_dash_head_app.
Qed.

Lemma candidate_inj (base : string) (i j : nat) :
  candidate base i = candidate base j → i = j.
Proof.
  assert (Hne : ∀ n, base ≠ base +:+ "-" +:+ str n).
  { intros n. induction base as [|c b IH]; [done|].
    rewrite append_cons. intros [= H]. by apply IH. }
  destruct i, j; simpl; intros H; try done.
  - by apply Hne in H.
  - symmetry in H. by apply Hne in H.
  - apply (inj (String.append base)) in H. rewrite !append_cons, !append_nil_l in H.
    injection H as H. by apply str_inj.
Qed.

(** One turn of the loop, entered at [i] with the slug of the turn before. *)
Lemma slug_loop_step (fuel : nat) t sid (base : string) (i : nat) :
  slug_loop (S fuel) t sid (candidate base (pred i)) i =
  match qs_get (lookup_qs t sid (candidate base i)) with
  | inl ObjectDoesNotExist => Some (inr (candidate base i))
  | inl e => Some (inl e)
  | inr _ => slug_loop fuel t sid (candidate base i) (S i)
  end.
Proof.
  destruct i as [|i]; [done|].
  cbn [slug_loop pred]. by rewrite candidate_next.
Qed.

Lemma lookup_qs_Some t sid (s : string) k r :
  lookup_qs t sid s !! k = Some r ↔
  t !! k = Some r ∧ sid ≠ Some k ∧ slug r = Some s.
Proof.
  unfold lookup_qs, qs_exclude_id. destruct sid as [k0|].
  - rewrite !map_lookup_filter_Some. simpl.
    split; [intros [[? ?] ?]|intros (? & ? & ?)]; repeat split; congruence.
  - rewrite map_lookup_filter_Some. simpl.
    split; [intros [? ?]|intros (? & ? & ?)]; repeat split; congruence.
Qed.

Lemma holders_zero t sid (s : string) :
  holders t sid s = 0%nat ↔
  ∀ k r, t !! k = Some r → sid ≠ Some k → slug r ≠ Some s.
Proof.
  unfold holders. rewrite map_size_empty_iff. split.
  - intros H k r Hk Hsid Hs.
    assert (lookup_qs t sid s !! k = Some r) as Hl by by apply lookup_qs_Some.
    by rewrite H, lookup_empty in Hl.
  - intros H. apply map_eq. intros k. rewrite lookup_empty.
    destruct (lookup_qs t sid s !! k) as [r|] eqn:E; [|done].
    apply lookup_qs_Some in E as (Hk & Hsid & Hs). by destruct (H k r Hk Hsid).
Qed.

Lemma holders_pos t sid (s : string) :
  holders t sid s ≠ 0%nat → ∃ k r, t !! k = Some r ∧ slug r = Some s.
Proof.
  unfold holders. intros H. apply map_size_ne_0_lookup in H as [k [r Hk]].
  apply lookup_qs_Some in Hk as (Hk & _ & Hs). by exists k, r.
Qed.

(** The loop stops at the first candidate that is not held by exactly
    one other row. *)
Lemma slug_loop_run t sid (base : string) (fuel i n : nat) :
  (i ≤ n < i + fuel)%nat →
  (∀ j, (i ≤ j < n)%nat → holders t sid (candidate base j) = 1%nat) →
  holders t sid (candidate base n) ≠ 1%nat →
  slug_loop fuel t sid (candidate base (pred i)) i =
  Some (if decide (holders t sid (candidate base n) = 0%nat)
        then inr (candidate base n) else inl MultipleObjectsReturned).
Proof.
  revert i. induction fuel as [|fuel IH]; intros i Hi Hone Hn; [lia|].
  rewrite slug_loop_step.
  pose proof (qs_get_size (lookup_qs t sid (candidate base i))) as Hget.
  fold (holders t sid (candidate base i)) in Hget.
  destruct (decide (i = n)) as [->|Hne].
  - destruct (qs_get _) as [[]|[k r]]; try done.
    + by rewrite decide_True.
    + rewrite decide_False by lia. done.
    + by destruct Hget.
  - assert (holders t sid (candidate base i) = 1%nat) as H1 by (apply Hone; lia).
    rewrite H1 in Hget.
    destruct (qs_get _) as [[]|[k r]]; try done; try lia.
    apply (IH (S i)); [lia| |done]. intros j Hj. apply Hone. lia.
Qed.

(** Candidates are pairwise distinct, so a table of [size t] rows cannot
    hold the first [size t + 1] of them. *)
Lemma candidates_run_out t sid (base : string) :
  ¬ ∀ j, (j ≤ size t)%nat → holders t sid (candidate base j) = 1%nat.
Proof.
  intros H.
  set (l := (λ j, Some (candidate base j)) <$> seq 0 (S (size t))).
  set (k := (λ kr : Z * Row, slug kr.2) <$> map_to_list t).
  assert (l ⊆+ k) as Hsub.
  { apply NoDup_submseteq.
    - apply NoDup_fmap_2; [|apply NoDup_seq].
      intros i j [= Hij]. by apply candidate_inj in Hij.
    - intros x [j [-> Hj]]%list_elem_of_fmap. apply elem_of_seq in Hj.
      destruct (holders_pos t sid (candidate base j)) as (k0 & r & Hk & Hs).
      { rewrite H; lia. }
      apply list_elem_of_fmap. exists (k0, r). split; [done|].
      by apply elem_of_map_to_list. }
  apply submseteq_length in Hsub. unfold l, k in Hsub.
  rewrite !length_fmap, length_seq, length_map_to_list in Hsub. lia.
Qed.

Lemma first_stop t sid (base : string) (m : nat) :
  (∀ j, (j < m)%nat → holders t sid (candidate base j) = 1%nat) ∨
  ∃ n, (n < m)%nat ∧ holders t sid (candidate base n) ≠ 1%nat ∧
       ∀ j, (j < n)%nat → holders t sid (candidate base j) = 1%nat.
Proof.
  induction m as [|m [IH|(n & ? & ? & ?)]].
  - left. lia.
  - destruct (decide (holders t sid (candidate base m) = 1%nat)) as [H1|H1].
    + left. intros j Hj. destruct (decide (j = m)) as [->|]; [done|]. apply IH. lia.
    + right. exists m. split; [lia|]. split; [done|]. intros; apply IH; lia.
  - right. exists n. split; [lia|]. done.
Qed.

Lemma slug_loop_total t sid (base : string) :
  ∃ n, (n ≤ size t)%nat ∧
    (∀ j, (j < n)%nat → holders t sid (candidate base j) = 1%nat) ∧
    holders t sid (candidate base n) ≠ 1%nat ∧
    slug_loop (S (size t)) t sid base 0 =
    Some (if decide (holders t sid (candidate base n) = 0%nat)
          then inr (candidate base n) else inl MultipleObjectsReturned).
Proof.
  destruct (first_stop t sid base (S (size t))) as [H|(n & Hn & Hstop & Hone)].
  - exfalso. apply (candidates_run_out t sid base). intros j Hj. apply H. lia.
  - exists n. split; [lia|]. split; [done|]. split; [done|].
    apply (slug_loop_run t sid base (S (size t)) 0 n); [lia| |done].
    intros j Hj. apply Hone. lia.
Qed.

End SluggedFacts.
Section SluggedClaims.

Import Slugged.
Variable slugify : string → string.

Lemma Model_save_stores t self :
  stores (Model_save t self) (slug (fields self)).
Proof.
  unfold stores, Model_save. eexists _, _, _. split; [done|]. split; [done|].
  simpl. by rewrite lookup_insert_eq.
Qed.

(** [save] on an instance without a slug either stores it under a slug
    no other row holds, or raises. *)
Lemma save_outcome (t : gmap Z Row) (self : Instance) :
  slug_is_empty self = true →
  (∃ s, holders t (id self) s = 0%nat ∧
        save slugify t self = Model_save t (set_slug s self)) ∨
  save slugify t self = Raised MultipleObjectsReturned.
Proof.
  intros Hempty.
  destruct (slug_loop_total t (id self) (slugify (title (fields self))))
    as (n & _ & _ & _ & Hrun).
  unfold save, get_slug. rewrite Hempty, Hrun.
  destruct (decide _) as [H0|H0]; [left|by right]. by eexists.
Qed.

(** The lookup loop never outlasts its turns. *)
Lemma save_returns (t : gmap Z Row) (self : Instance) :
  save slugify t self ≠ OutOfFuel.
Proof.
  destruct (slug_is_empty self) eqn:Hempty.
  - destruct (save_outcome t self Hempty) as [(s & _ & ->)| ->]; done.
  - unfold save. by rewrite Hempty.
Qed.



(** The same invariant read with NULL slugs never equal. *)
Lemma Slugged_save_unique_set_slugs (t : gmap Z Row) (self : Instance) :
  slug_is_empty self = true →
  unique_set_slugs t →
  unique_set_slugs (table_after t (save slugify t self)).
Proof.
  intros Hempty Huniq.
  destruct (save_outcome t self Hempty) as [(s & H0 & ->)| ->]; [|done].
  unfold Model_save. simpl.
  set (k := match id self with Some k => k | None => next_id t end).
  assert (Hother : ∀ k' r, t !! k' = Some r → k' ≠ k → slug r ≠ Some s).
  { intros k' r Hk' Hne. apply (proj1 (holders_zero t (id self) s) H0 k' r Hk').
    subst k. destruct (id self); congruence. }
  intros k1 k2 r1 r2 s' H1 H2 Hne Hsite Hs'.
  apply lookup_insert_Some in H1 as [[<- <-]|[Hk1 H1]];
    apply lookup_insert_Some in H2 as [[<- <-]|[Hk2 H2]]; try done.
  - simpl in Hs'. injection Hs' as <-. by apply (Hother k2 r2 H2).
  - simpl. intros [= <-]. by apply (Hother k1 r1 H1).
  - by apply (Huniq k1 k2 r1 r2 s').
Qed.

End SluggedClaims.


(** *** [Slugged.save] on concrete tables *)

Ltac two_rows H :=
  apply lookup_insert_Some in H as [[<- <-]|[_ H]];
  [|apply lookup_singleton_Some in H as [<- <-]].

Lemma slug_table_unique : Slugged.unique_slugs Examples.slug_table.
Proof.
  intros k1 k2 r1 r2 H1 H2 Hne Hsite. unfold Examples.slug_table in *.
  two_rows H1; two_rows H2; done.
Qed.

Lemma two_sites_unique : Slugged.unique_slugs Examples.two_sites.
Proof.
  intros k1 k2 r1 r2 H1 H2 Hne Hsite. unfold Examples.two_sites in *.
  two_rows H1; two_rows H2; done.
Qed.



Example unslugged_gets_about_2 :
  Slugged.table_after Examples.slug_table
    (Slugged.save Examples.slugify_plain Examples.slug_table
                  Examples.unslugged) !! 3
  = Some (Examples.flat_page "about" (Some "about-2") 1).
Proof. vm_compute. reflexivity. Qed.



(** *** More on [Slugged.save]: what it leaves alone, and saving again *)

Section SluggedMore.

Import Slugged.
Variable slugify : string → string.

Lemma candidate_empty (base : string) (n : nat) :
  candidate base n = "" → n = 0%nat ∧ base = "".
Proof.
  destruct n as [|n]; [done|]. simpl. intros H.
  destruct base; discriminate H.
Qed.

(** What a call that stores has done, whichever branch it took. *)
Lemma save_stored (t t' : gmap Z Row) (self self' : Instance) :
  save slugify t self = Saved t' self' →
  ∃ s,
    let k := match id self with Some k => k | None => next_id t end in
    self' = {| id := Some k;
               fields := {| title := title (fields self); slug := s;
                            site := site (fields self) |} |} ∧
    t' = <[k := fields self']> t ∧
    (slug_is_empty self = false → s = slug (fields self)) ∧
    (slug_is_empty self = true →
     ∃ n, s = Some (candidate (slugify (title (fields self))) n) ∧
          holders t (id self) (candidate (slugify (title (fields self))) n)
            = 0%nat).
Proof.
  unfold save. destruct (slug_is_empty self) eqn:Hempty.
  - destruct (slug_loop_total t (id self) (slugify (title (fields self))))
      as (n & _ & _ & _ & Hrun).
    unfold get_slug. rewrite Hrun.
    destruct (decide _) as [H0|H0]; [|done].
    unfold Model_save. intros [= <- <-]. eexists. simpl.
    split; [done|]. split; [done|]. split; [done|]. intros _. by exists n.
  - unfold Model_save. intros [= <- <-]. exists (slug (fields self)). simpl.
    split; [by destruct self as [? []]|]. split; [done|]. split; done.
Qed.

(** Property X1. A call of [Slugged.save] that stores the instance touches no row but
    the instance's own: every other row is as it was, a new instance is
    stored under a key no row had, and the title and the site stored are
    the instance's. A slug that was set is stored as it is. *)
Theorem Slugged_save_frame (t t' : gmap Z Row) (self self' : Instance) :
  save slugify t self = Saved t' self' →
  ∃ k,
    id self' = Some k ∧
    t' !! k = Some (fields self') ∧
    (∀ k', k' ≠ k → t' !! k' = t !! k') ∧
    (∀ k0, id self = Some k0 → k = k0) ∧
    (id self = None → t !! k = None) ∧
    title (fields self') = title (fields self) ∧
    site (fields self') = site (fields self) ∧
    (slug_is_empty self = false → fields self' = fields self).
Proof.
  intros Hsave. destruct (save_stored t t' self self' Hsave)
    as (s & Hself & Ht & Hkeep & _). cbv zeta in *.
  set (k := match id self with Some k => k | None => next_id t end) in *.
  exists k. rewrite Ht, Hself. simpl.
  split; [done|]. split; [apply lookup_insert_eq|].
  split; [intros k' Hk'; by apply lookup_insert_ne|].
  split; [intros k0 Hk0; subst k; by rewrite Hk0|].
  split; [intros Hnone; subst k; rewrite Hnone; apply next_id_fresh|].
  split; [done|]. split; [done|].
  intros Hset. rewrite (Hkeep Hset). by destruct self as [? []].
Qed.

(** Property X2. Saving again what [Slugged.save] has just stored changes nothing: the
    instance keeps its slug and its key, and the table is the same. *)
Theorem Slugged_save_again (t t' : gmap Z Row) (self self' : Instance) :
  save slugify t self = Saved t' self' →
  save slugify t' self' = Saved t' self'.
Proof.
  intros Hsave. destruct (save_stored t t' self self' Hsave)
    as (s & Hself & Ht & Hkeep & Hnew). cbv zeta in *.
  set (k := match id self with Some k => k | None => next_id t end) in *.
  assert (Hstore : Model_save t' self' = Saved t' self').
  { unfold Model_save. rewrite Hself. simpl. rewrite Ht, Hself. simpl.
    by rewrite insert_insert_eq. }
  unfold save. destruct (slug_is_empty self') eqn:Hempty'; [|done].
  (* the slug stored is the empty string, found free *)
  assert (s = Some "") as ->.
  { rewrite Hself in Hempty'. unfold slug_is_empty in Hempty'. simpl in Hempty'.
    destruct s as [s|].
    - by apply bool_decide_eq_true in Hempty' as ->.
    - destruct (slug_is_empty self) eqn:Hempty.
      + by destruct (Hnew eq_refl) as (n & ? & _).
      + unfold slug_is_empty in Hempty. rewrite <- (Hkeep eq_refl) in Hempty.
        done. }
  assert (slugify (title (fields self)) = "" ∧
          holders t (id self) "" = 0%nat) as [Hbase Hfree].
  { destruct (slug_is_empty self) eqn:Hempty.
    - destruct (Hnew eq_refl) as (n & [= Hn] & H0). symmetry in Hn.
      apply candidate_empty in Hn as [-> Hb]. simpl in H0. by rewrite Hb in *.
    - unfold slug_is_empty in Hempty. rewrite <- (Hkeep eq_refl) in Hempty.
      done. }
  assert (holders t' (id self') "" = 0%nat) as Hfree'.
  { apply holders_zero. intros k' r Hk' Hne.
    rewrite Hself in Hne. simpl in Hne.
    assert (k' ≠ k) as Hk by congruence.
    rewrite Ht, lookup_insert_ne in Hk' by done.
    apply (proj1 (holders_zero t (id self) "") Hfree k' r Hk').
    subst k. destruct (id self); congruence. }
  unfold get_slug.
  replace (slugify (title (fields self'))) with "" by (by rewrite Hself).
  assert (slug_loop (S (size t')) t' (id self') "" 0 = Some (inr "")) as ->.
  { pose proof (slug_loop_run t' (id self') "" (S (size t')) 0 0) as Hrun.
    simpl candidate in Hrun. rewrite Hfree' in Hrun.
    rewrite decide_True in Hrun by done. apply Hrun; [lia|intros; lia|lia]. }
  replace (set_slug "" self') with self'; [done|].
  rewrite Hself. reflexivity.
Qed.

End SluggedMore.

Lemma Slugged_save_frame_witness :
  ∃ k,
    Slugged.id {| Slugged.id := Some 3;
                  Slugged.fields :=
                    Examples.flat_page "about" (Some "about-2") 1 |} = Some k ∧
    <[3 := Examples.flat_page "about" (Some "about-2") 1]> Examples.slug_table
      !! k = Some (Examples.flat_page "about" (Some "about-2") 1) ∧
    (∀ k', k' ≠ k →
       <[3 := Examples.flat_page "about" (Some "about-2") 1]>
         Examples.slug_table !! k' = Examples.slug_table !! k') ∧
    Examples.slug_table !! k = None.
Proof.
  destruct (Slugged_save_frame Examples.slugify_plain Examples.slug_table
              (<[3 := Examples.flat_page "about" (Some "about-2") 1]>
                 Examples.slug_table)
              Examples.unslugged
              {| Slugged.id := Some 3;
                 Slugged.fields :=
                   Examples.flat_page "about" (Some "about-2") 1 |})
    as (k & Hid & Hk & Hother & _ & Hnew & _).
  - vm_compute. reflexivity.
  - exists k. split; [exact Hid|]. split; [exact Hk|]. split; [exact Hother|].
    apply Hnew. reflexivity.
Defined.

Lemma Slugged_save_again_witness :
  Slugged.save Examples.slugify_plain
    (<[3 := Examples.flat_page "about" (Some "about-2") 1]> Examples.slug_table)
    {| Slugged.id := Some 3;
       Slugged.fields := Examples.flat_page "about" (Some "about-2") 1 |}
  = Slugged.Saved
      (<[3 := Examples.flat_page "about" (Some "about-2") 1]>
         Examples.slug_table)
      {| Slugged.id := Some 3;
         Slugged.fields := Examples.flat_page "about" (Some "about-2") 1 |}.
Proof.
  apply (Slugged_save_again Examples.slugify_plain Examples.slug_table _
           Examples.unslugged).
  vm_compute. reflexivity.
Defined.

Section SluggedTwoSaves.

Import Slugged.
Variable slugify : string → string.


End SluggedTwoSaves.


(** ** [Orderable] *)

Lemma shift_range (i : nat) (l : list (option Z)) (n : nat) :
  Some (Z.of_nat i) :: l ≡ₚ Orderable.range n →
  Orderable.shift (Z.of_nat i) <$> l ≡ₚ Orderable.range (n - 1).
Proof.
  intros Hperm. unfold Orderable.range in *.
  assert (i < n)%nat as Hi.
  { assert (Some (Z.of_nat i) ∈ (λ j, Some (Z.of_nat j)) <$> seq 0 n) as Hin.
    { rewrite <- Hperm. set_solver. }
    apply list_elem_of_fmap in Hin as (j & [= Hj] & Hin).
    apply elem_of_seq in Hin. lia. }
  replace n with (i + S (n - S i))%nat in Hperm by lia.
  rewrite seq_app, fmap_app in Hperm. simpl in Hperm.
  rewrite <- Permutation_middle in Hperm.
  apply Permutation_cons_inv in Hperm. rewrite Hperm.
  replace (n - 1)%nat with (i + (n - S i))%nat by lia.
  rewrite seq_app, !fmap_app. f_equiv.
  - apply reflexive_eq. rewrite <- list_fmap_compose.
    apply list_fmap_ext. intros ? j Hj%list_elem_of_lookup_2%elem_of_seq. simpl.
    rewrite decide_False by lia. done.
  - apply reflexive_eq. rewrite <- fmap_S_seq, <- !list_fmap_compose.
    apply list_fmap_ext. intros ? j Hj%list_elem_of_lookup_2%elem_of_seq. simpl.
    rewrite decide_True by lia. f_equal. lia.
Qed.

Section OrderableFacts.

Import Orderable.
Variable order_with_respect_to : option string.

(** Field names hold no double underscore, so the sibling filter never
    has the key [_order__gte] itself. *)
Hypothesis field_name_ok : order_with_respect_to ≠ Some "_order__gte".

Lemma with_respect_to_no_gte (self : Instance) :
  with_respect_to order_with_respect_to self !! "_order__gte" = None.
Proof using field_name_ok.
  unfold with_respect_to. destruct order_with_respect_to as [field|]; [|done].
  destruct (columns (fields self) !! field); [|done].
  apply lookup_singleton_ne. congruence.
Qed.

Lemma row_matches_gte (L : gmap string (option Z)) (p : Z) (r : Row) :
  L !! "_order__gte" = None →
  row_matches (<["_order__gte" := Some p]> L) r ↔
  row_matches L r ∧ order_at_least p r.
Proof.
  intros HL. unfold row_matches. rewrite map_Forall_insert by done.
  unfold keyword_holds at 1, order_at_least. rewrite decide_True by done.
  tauto.
Qed.

Lemma row_matches_columns (L : gmap string (option Z)) (r r' : Row) :
  L !! "_order__gte" = None →
  columns r = columns r' →
  row_matches L r ↔ row_matches L r'.
Proof.
  intros HL Hc. unfold row_matches, map_Forall.
  assert (∀ key v, L !! key = Some v →
                   keyword_holds r key v ↔ keyword_holds r' key v) as H.
  { intros key v Hkey. unfold keyword_holds.
    destruct (decide (key = "_order__gte")) as [->|]; [congruence|].
    by rewrite Hc. }
  split; intros HF key v Hkey; apply (H key v Hkey); by apply HF.
Qed.

Lemma self_is_sibling (self : Instance) :
  row_matches (with_respect_to order_with_respect_to self) (fields self).
Proof using field_name_ok.
  unfold with_respect_to. destruct order_with_respect_to as [field|];
    [|apply map_Forall_empty].
  destruct (columns (fields self) !! field) as [v|] eqn:E;
    [|apply map_Forall_empty].
  apply map_Forall_singleton. unfold keyword_holds.
  rewrite decide_False by congruence. done.
Qed.


(** Property X4. A new instance without an [_order], saved among siblings numbered
    [0 .. n-1], is stored at position [n]: the siblings are numbered
    [0 .. n] afterwards. *)
Lemma Orderable_save_appends (t : gmap Z Row) (self : Instance) (n : nat) :
  id self = None →
  _order (fields self) = None →
  orders (siblings order_with_respect_to t self) ≡ₚ range n →
  let '(t', self') := save order_with_respect_to t self in
  _order (fields self') = Some (Z.of_nat n) ∧
  orders (siblings order_with_respect_to t' self') ≡ₚ range (S n).
Proof using field_name_ok.
  intros Hid Hord Hn. unfold save, Model_save. rewrite Hord.
  cbn [id set_order fields _order]. rewrite Hid.
  assert (size (qs_filter (with_respect_to order_with_respect_to self) t) = n)
    as ->.
  { apply Permutation_length in Hn. unfold orders, range, siblings in Hn.
    by rewrite !length_fmap, length_seq, length_map_to_list in Hn. }
  split; [done|]. unfold siblings in *.
  set (self' := set_order (Some (Z.of_nat n)) self).
  change (with_respect_to order_with_respect_to
            {| id := Some (next_id t); fields := fields self' |})
    with (with_respect_to order_with_respect_to self).
  unfold qs_filter. rewrite map_filter_insert_True.
  - unfold orders. rewrite map_to_list_insert.
    + rewrite fmap_cons. simpl. fold (orders (qs_filter
        (with_respect_to order_with_respect_to self) t)).
      unfold qs_filter in Hn |- *. rewrite Hn. unfold range.
      rewrite seq_S, fmap_app. simpl. by rewrite Permutation_app_comm.
    + apply map_lookup_filter_None. left. apply next_id_fresh.
  - simpl. apply (self_is_sibling self').
Qed.

End OrderableFacts.

Section OrderableSave.

Import Orderable.
Variable order_with_respect_to : option string.


End OrderableSave.

(** *** [Orderable] on a concrete table *)


Example second_page_siblings :
  Orderable.orders
    (Orderable.siblings (Some "parent") Examples.page_table
       Examples.second_page)
  = [Some 2; Some 1; Some 0].
Proof. vm_compute. reflexivity. Qed.

Example second_page_deleted :
  match Orderable.delete (Some "parent") Examples.page_table
          Examples.second_page with
  | Orderable.Deleted t' =>
      (λ k, Orderable._order <$> t' !! k) <$> [1; 2; 3; 4; 5]
  | Orderable.Raised _ _ => []
  end
  = [Some (Some 0); None; Some (Some 0); Some (Some 1); Some (Some 1)].
Proof. vm_compute. reflexivity. Qed.

(** A new child of page 1 is given the next position among its siblings. *)
Example new_child_is_appended :
  Orderable._order
    (Orderable.fields
       (Orderable.save (Some "parent") Examples.page_table
          {| Orderable.id := None;
             Orderable.fields :=
               {| Orderable._order := None;
                  Orderable.columns := {[ "parent" := Some 1 ]} |} |}).2)
  = Some 2.
Proof. vm_compute. reflexivity. Qed.

(** An instance without an [_order] cannot be deleted: the filter raises
    before any row is touched. *)
Example delete_without_order :
  Orderable.delete (Some "parent") Examples.page_table
    {| Orderable.id := Some 2;
       Orderable.fields :=
         {| Orderable._order := None;
            Orderable.columns := {[ "parent" := None ]} |} |}
  = Orderable.Raised ValueError Examples.page_table.
Proof. reflexivity. Qed.

(** *** More on [Orderable]: save then delete, and the order delete keeps *)

Section OrderableMore.

Import Orderable.
Variable order_with_respect_to : option string.
Hypothesis field_name_ok : order_with_respect_to ≠ Some "_order__gte".

(** The table [delete] leaves for an instance that has an id and an
    [_order]. *)
Lemma delete_table (t : gmap Z Row) (self : Instance) (k p : Z) :
  id self = Some k →
  _order (fields self) = Some p →
  delete order_with_respect_to t self =
  Deleted (base.delete k
             (qs_update_decrement
                (<["_order__gte" := Some p]>
                   (with_respect_to order_with_respect_to self)) t)).
Proof.
  intros Hid Hord. unfold delete, Model_delete. by rewrite Hord, Hid.
Qed.

(** The row [delete] leaves under a key other than the instance's. *)
Lemma delete_lookup (t : gmap Z Row) (self : Instance) (k p k' : Z)
    (r : Row) :
  k' ≠ k →
  t !! k' = Some r →
  base.delete k
    (qs_update_decrement
       (<["_order__gte" := Some p]>
          (with_respect_to order_with_respect_to self)) t) !! k'
  = Some (if decide (row_matches
                       (with_respect_to order_with_respect_to self) r)
          then {| _order := shift p (_order r); columns := columns r |}
          else r).
Proof using field_name_ok.
  intros Hne Hr. unfold qs_update_decrement.
  rewrite lookup_delete_ne, lookup_fmap, Hr by done. simpl. f_equal.
  pose proof (with_respect_to_no_gte order_with_respect_to field_name_ok self)
    as Hgte.
  destruct (decide (row_matches (<["_order__gte":=Some p]> _) r)) as [Hm|Hm].
  - apply row_matches_gte in Hm as [Hm Hp]; [|done].
    rewrite decide_True by done. unfold decrement, order_at_least in *.
    destruct (_order r) as [o|]; [|done]. simpl. by rewrite decide_True.
  - destruct (decide (row_matches _ r)) as [Hw|Hw]; [|done].
    assert (¬ order_at_least p r) as Hn.
    { intros ?. apply Hm. by apply row_matches_gte. }
    unfold order_at_least in Hn. destruct r as [[o|] c]; simpl in *; [|done].
    by rewrite decide_False.
Qed.

(** Property X5. Saving a new instance and deleting it again gives the table back,
    when the siblings it was saved among were numbered [0 .. n-1]. *)
Theorem Orderable_save_then_delete (t : gmap Z Row) (self : Instance)
    (n : nat) :
  id self = None →
  _order (fields self) = None →
  orders (siblings order_with_respect_to t self) ≡ₚ range n →
  let '(t', self') := save order_with_respect_to t self in
  delete order_with_respect_to t' self' = Deleted t.
Proof using field_name_ok.
  intros Hid Hord Hn. unfold save, Model_save. rewrite Hord.
  cbn [id set_order fields _order]. rewrite Hid.
  assert (size (qs_filter (with_respect_to order_with_respect_to self) t) = n)
    as ->.
  { apply Permutation_length in Hn. unfold orders, range, siblings in Hn.
    by rewrite !length_fmap, length_seq, length_map_to_list in Hn. }
  set (k := next_id t).
  set (f := {| _order := Some (Z.of_nat n); columns := columns (fields self) |}).
  rewrite (delete_table _ _ k (Z.of_nat n)) by done.
  f_equal. apply map_eq. intros k'.
  destruct (decide (k' = k)) as [->|Hne].
  - rewrite lookup_delete_eq. symmetry. apply next_id_fresh.
  - destruct (t !! k') as [r|] eqn:Hr.
    + rewrite (delete_lookup _ _ k (Z.of_nat n) k' r); [|done|].
      2:{ by rewrite lookup_insert_ne. }
      change (with_respect_to order_with_respect_to
                {| id := Some k; fields := f |})
        with (with_respect_to order_with_respect_to self).
      destruct (decide _) as [Hm|Hm]; [|done].
      assert (_order r ∈ range n) as Hin.
      { rewrite <- Hn. unfold orders, siblings.
        apply list_elem_of_fmap. exists (k', r). split; [done|].
        apply elem_of_map_to_list. unfold qs_filter.
        by apply map_lookup_filter_Some. }
      apply list_elem_of_fmap in Hin as (i & Hi & Hseq%elem_of_seq).
      destruct r as [o c]. simpl in *. subst o. simpl.
      by rewrite decide_False by lia.
    + unfold qs_update_decrement.
      by rewrite lookup_delete_ne, lookup_fmap, lookup_insert_ne, Hr.
Qed.


End OrderableMore.

(** The second top-level page keeps its place after the third when the
    first is deleted, and a child saved under page 1 is the third child. *)
Lemma Orderable_save_appends_witness :
  let '(t', self') :=
    Orderable.save (Some "parent") Examples.page_table
      {| Orderable.id := None;
         Orderable.fields :=
           {| Orderable._order := None;
              Orderable.columns := {[ "parent" := Some 1 ]} |} |} in
  Orderable._order (Orderable.fields self') = Some (Z.of_nat 2) ∧
  Orderable.orders (Orderable.siblings (Some "parent") t' self')
    ≡ₚ Orderable.range 3.
Proof.
  apply (Orderable_save_appends (Some "parent")); [discriminate|reflexivity..|].
  vm_compute. apply perm_swap.
Defined.

Lemma Orderable_save_then_delete_witness :
  let '(t', self') :=
    Orderable.save (Some "parent") Examples.page_table
      {| Orderable.id := None;
         Orderable.fields :=
           {| Orderable._order := None;
              Orderable.columns := {[ "parent" := Some 1 ]} |} |} in
  Orderable.delete (Some "parent") t' self'
  = Orderable.Deleted Examples.page_table.
Proof.
  apply (Orderable_save_then_delete (Some "parent") ltac:(discriminate)
           Examples.page_table _ 2); [reflexivity..|].
  vm_compute. apply perm_swap.
Defined.


(** ** Generic relations *)

Lemma format1_count (name : string) : format1 "%s_count" name = name +:+ "_count".
Proof. reflexivity. Qed.

Lemma format1_average (name : string) :
  format1 "%s_average" name = name +:+ "_average".
Proof. reflexivity. Qed.

Lemma format1_string (name : string) :
  format1 "%s_string" name = name +:+ "_string".
Proof. reflexivity. Qed.

Section GenericFacts.

Import Generic.
Context {P : Type}.
Variable issubclass : string → string → bool.

(** A signal that passes both checks about an object that exists runs
    the handler, on the instance fetched and its related manager. *)
Lemma dispatch_handled (self : Field P) (kwargs : Signalled) (w : World P)
    (c : string) (a : gmap string attr_value) :
  issubclass (sender_class kwargs) (rel_to self) = true →
  for_model kwargs = Some c →
  issubclass c (model self) = true →
  objects w !! sender_object_pk kwargs = Some a →
  let w1 := fetched (sender_object_pk kwargs) w in
  let instance := handled_instance self (sender_object_pk kwargs) a in
  _related_items_changed issubclass self kwargs w =
  match related_items_changed self (related_field_name self) instance
          (related_manager_of self instance w1) w1 with
  | (inr _, w') => (inr (), w')
  | (inl e, w') => (inl e, w')
  end.
Proof.
  intros Hinst Hfor Hsub Hobj w1 instance.
  unfold _related_items_changed. rewrite Hinst, Hfor, Hsub. simpl.
  unfold mbind, M_bind, objects_get. rewrite Hobj. fold w1.
  unfold gets. fold (handled_instance self (sender_object_pk kwargs) a).
  fold instance. by destruct (related_items_changed _ _ _ _ _) as [[e|i] w'].
Qed.

(** Claim C9. A signal whose instance is no instance of the field's related
    model, or whose content type names a model that is no subclass of
    the model the field is applied to, leaves the database as it was:
    nothing is fetched, nothing is saved, and nothing is raised. *)
Theorem unrelated_signal_ignored (self : Field P) (kwargs : Signalled)
    (w : World P) :
  issubclass (sender_class kwargs) (rel_to self) = false ∨
  (∃ c, for_model kwargs = Some c ∧ issubclass c (model self) = false) →
  _related_items_changed issubclass self kwargs w = (inr (), w).
Proof.
  unfold _related_items_changed. intros [Hinst|(c & Hfor & Hsub)].
  - by rewrite Hinst.
  - destruct (issubclass (sender_class kwargs) (rel_to self)); [|done].
    simpl. by rewrite Hfor, Hsub.
Qed.


End GenericFacts.

Section KeywordsFacts.

Import Generic.
Variable issubclass : string → string → bool.

Lemma ne_unicode_false (v : attr_value) (s : string) :
  ne_unicode v s = false ↔ v = VUnicode s.
Proof.
  destruct v as [| | |s']; simpl; try (split; [done|congruence]).
  rewrite negb_false_iff, bool_decide_eq_true. split; congruence.
Qed.

(** The handler by cases on the string the instance holds. *)
Lemma KeywordsField_handler_run (name : string) (instance : Instance)
    (m : Manager AssignedKeyword) (w : World AssignedKeyword)
    (current : attr_value) :
  attrs instance !! (name +:+ "_string") = Some current →
  let keywords := keywords_string (all m) in
  KeywordsField_related_items_changed name instance m w =
  if ne_unicode current keywords then
    let instance' :=
      setattr (name +:+ "_string") (VUnicode keywords) instance in
    (inr instance', saved instance' w)
  else (inr instance, w).
Proof.
  intros Hcur keywords. unfold KeywordsField_related_items_changed.
  rewrite format1_string, Hcur. unfold unicode.
  fold (keywords_string (all m)). fold keywords.
  destruct (ne_unicode current keywords); reflexivity.
Qed.

(** Claim C7. A signal about an assigned keyword of an object that bears a
    [KeywordsField] leaves the object stored with its [<field>_string]
    equal to the names of its related keywords, in the manager's order,
    joined by single spaces. The instance handed to the handler carries
    the attributes stored under its id (as the instance fetched does). *)
Theorem KeywordsField_string_in_sync (model name : string)
    (get_content_model : option (Instance → Instance))
    (kwargs : Signalled) (w : World AssignedKeyword)
    (c : string) (a : gmap string attr_value) (current : attr_value) :
  let self := KeywordsField model name get_content_model in
  issubclass (sender_class kwargs) "generic.AssignedKeyword" = true →
  for_model kwargs = Some c →
  issubclass c model = true →
  objects w !! sender_object_pk kwargs = Some a →
  let instance := handled_instance self (sender_object_pk kwargs) a in
  objects w !! id instance = Some (attrs instance) →
  attrs instance !! (name +:+ "_string") = Some current →
  let keywords := keywords_string (related_rows instance w) in
  ∃ w',
    _related_items_changed issubclass self kwargs w = (inr (), w') ∧
    related w' = related w ∧
    objects w' !! id instance ≫= (.!! (name +:+ "_string"))
      = Some (VUnicode keywords).
Proof.
  intros self Hinst Hfor Hsub Hobj instance Hsync Hcur keywords.
  rewrite (dispatch_handled issubclass self kwargs w c a Hinst Hfor Hsub Hobj).
  fold instance. simpl.
  rewrite (KeywordsField_handler_run name instance _ _ current Hcur).
  simpl. fold (related_rows instance w). fold keywords.
  destruct (ne_unicode current keywords) eqn:Hne.
  - eexists. split; [done|]. split; [done|]. simpl.
    rewrite lookup_insert_eq. simpl. by rewrite lookup_insert_eq.
  - apply ne_unicode_false in Hne as ->.
    eexists. split; [done|]. split; [done|]. simpl. rewrite Hsync. simpl. done.
Qed.

(** Claim C10. When the instance's [<field>_string] already equals the
    string computed from the related rows, the handler saves nothing and
    hands the instance back as it was; so a second run of the handler,
    on what the first run left and with the same related rows, writes
    nothing. *)
Theorem KeywordsField_writes_only_on_change (name : string)
    (instance : Instance) (m : Manager AssignedKeyword)
    (w : World AssignedKeyword) (current : attr_value) :
  attrs instance !! (name +:+ "_string") = Some current →
  (current = VUnicode (keywords_string (all m)) →
   KeywordsField_related_items_changed name instance m w = (inr instance, w)) ∧
  ∃ instance' w',
    KeywordsField_related_items_changed name instance m w
      = (inr instance', w') ∧
    KeywordsField_related_items_changed name instance' m w'
      = (inr instance', w').
Proof.
  intros Hcur.
  assert (Hsame : ∀ i w0, attrs i !! (name +:+ "_string")
                          = Some (VUnicode (keywords_string (all m))) →
            KeywordsField_related_items_changed name i m w0 = (inr i, w0)).
  { intros i w0 Hi. rewrite (KeywordsField_handler_run name i m w0 _ Hi).
    cbv zeta. by rewrite (proj2 (ne_unicode_false _ _) eq_refl). }
  split.
  - intros ->. by apply Hsame.
  - rewrite (KeywordsField_handler_run name instance m w _ Hcur). simpl.
    destruct (ne_unicode current _) eqn:Hne.
    + eexists _, _. split; [done|]. apply Hsame. apply lookup_insert_eq.
    + apply ne_unicode_false in Hne as ->.
      eexists _, _. split; [done|]. by apply Hsame.
Qed.

End KeywordsFacts.

Section RatingFacts.

Import Generic.
Variable issubclass : string → string → bool.

Lemma count_average_names (name : string) :
  name +:+ "_average" ≠ name +:+ "_count".
Proof. intros H. by apply (inj (String.append name)) in H. Qed.

(** Claim C6. A signal about a rating of an object that bears a
    [RatingField] fetches the object, sets its [<field>_count] to the
    number of related ratings and its [<field>_average] to the sum of
    their values divided, as floats, by that number (to the integer 0
    when there is none), and saves it. The sum is one a float can hold. *)
Theorem RatingField_average_in_sync (model name : string)
    (get_content_model : option (Instance → Instance))
    (kwargs : Signalled) (w : World Rating)
    (c : string) (a : gmap string attr_value) :
  let self := RatingField model name get_content_model in
  issubclass (sender_class kwargs) "generic.Rating" = true →
  for_model kwargs = Some c →
  issubclass c model = true →
  objects w !! sender_object_pk kwargs = Some a →
  let instance := handled_instance self (sender_object_pk kwargs) a in
  let ratings := (λ r, value (payload r)) <$> related_rows instance w in
  let count := Z.of_nat (length ratings) in
  PrimFloat.is_infinity (float_of_Z (sum ratings)) = false →
  let average :=
    match ratings with
    | [] => VInt 0
    | _ :: _ => VFloat (float_of_Z (sum ratings) / float_of_Z count)
    end in
  ∃ w',
    _related_items_changed issubclass self kwargs w = (inr (), w') ∧
    w' = saved (setattr (name +:+ "_average") average
                  (setattr (name +:+ "_count") (VInt count) instance))
               (fetched (sender_object_pk kwargs) w) ∧
    objects w' !! id instance ≫= (.!! (name +:+ "_count"))
      = Some (VInt count) ∧
    objects w' !! id instance ≫= (.!! (name +:+ "_average"))
      = Some average.
Proof.
  intros self Hinst Hfor Hsub Hobj instance ratings count Hfin average.
  rewrite (dispatch_handled issubclass self kwargs w c a Hinst Hfor Hsub Hobj).
  fold instance. simpl. unfold RatingField_related_items_changed.
  rewrite format1_count, format1_average. simpl.
  fold (related_rows instance w). fold ratings. fold count.
  assert (Hrun :
    (if decide (0 < count)
     then total ← python_float (sum ratings);
          mret (VFloat (total / float_of_Z count))
     else mret (VInt 0)) (fetched (sender_object_pk kwargs) w)
    = (inr average, fetched (sender_object_pk kwargs) w)).
  { subst average count. destruct ratings as [|r rs].
    - by rewrite decide_False by (simpl; lia).
    - rewrite decide_True by (simpl length; lia).
      unfold python_float. rewrite Hfin. reflexivity. }
  unfold mbind at 1. unfold M_bind at 1. rewrite Hrun.
  eexists. split; [reflexivity|]. split; [reflexivity|]. simpl.
  rewrite lookup_insert_eq. simpl. split.
  - rewrite lookup_insert_ne by apply count_average_names.
    by rewrite lookup_insert_eq.
  - by rewrite lookup_insert_eq.
Qed.

End RatingFacts.

(** *** The handlers on a blog post with three side-table rows, two of
    them its own *)

Lemma unrelated_signal_ignored_witness :
  Examples.exact_class (Generic.sender_class Examples.post_saved)
    "generic.ThreadedComment" = false ∧
  Generic._related_items_changed Examples.exact_class
    (Generic.CommentsField "blog.BlogPost" "comments" None None)
    Examples.post_saved Examples.comments
  = (inr (), Examples.comments).
Proof.
  split; [reflexivity|].
  apply (unrelated_signal_ignored Examples.exact_class). left. reflexivity.
Defined.


Lemma KeywordsField_string_in_sync_witness :
  ∃ w',
    Generic._related_items_changed Examples.exact_class
      (Generic.KeywordsField "blog.BlogPost" "keywords" None)
      (Examples.about_post_7 "generic.AssignedKeyword") Examples.keywords
    = (inr (), w') ∧
    Generic.objects w' !! 7 ≫= (.!! "keywords_string")
    = Some (Generic.VUnicode "django python").
Proof.
  destruct (KeywordsField_string_in_sync Examples.exact_class
              "blog.BlogPost" "keywords" None
              (Examples.about_post_7 "generic.AssignedKeyword")
              Examples.keywords "blog.BlogPost" Examples.post_attrs
              (Generic.VUnicode ""))
    as (w' & Hrun & _ & Hstring); [reflexivity..|].
  exists w'. split; [exact Hrun|exact Hstring].
Defined.

Lemma KeywordsField_writes_only_on_change_witness :
  ∃ instance' w',
    Generic.KeywordsField_related_items_changed "keywords"
      {| Generic.cls := "blog.BlogPost"; Generic.id := 7;
         Generic.attrs := Examples.post_attrs |}
      {| Generic.all := [Examples.row_of 7 (Examples.keyword_named "django")];
         Generic.count_queryset := None |}
      Examples.keywords
    = (inr instance', w') ∧
    Generic.log w' = [Generic.Saved 7] ∧
    Generic.KeywordsField_related_items_changed "keywords" instance'
      {| Generic.all := [Examples.row_of 7 (Examples.keyword_named "django")];
         Generic.count_queryset := None |}
      w'
    = (inr instance', w').
Proof.
  destruct (KeywordsField_writes_only_on_change "keywords"
              {| Generic.cls := "blog.BlogPost"; Generic.id := 7;
                 Generic.attrs := Examples.post_attrs |}
              {| Generic.all :=
                   [Examples.row_of 7 (Examples.keyword_named "django")];
                 Generic.count_queryset := None |}
              Examples.keywords (Generic.VUnicode ""))
    as (_ & instance' & w' & Hfirst & Hsecond); [reflexivity|].
  exists instance', w'. split; [exact Hfirst|]. split; [|exact Hsecond].
  vm_compute in Hfirst. by injection Hfirst as _ <-.
Defined.

Lemma RatingField_average_in_sync_witness :
  ∃ w',
    Generic._related_items_changed Examples.exact_class
      (Generic.RatingField "blog.BlogPost" "rating" None)
      (Examples.about_post_7 "generic.Rating") Examples.ratings
    = (inr (), w') ∧
    Generic.objects w' !! 7 ≫= (.!! "rating_count")
    = Some (Generic.VInt 2) ∧
    Generic.objects w' !! 7 ≫= (.!! "rating_average")
    = Some (Generic.VFloat 3.5).
Proof.
  destruct (RatingField_average_in_sync Examples.exact_class
              "blog.BlogPost" "rating" None
              (Examples.about_post_7 "generic.Rating")
              Examples.ratings "blog.BlogPost" Examples.post_attrs)
    as (w' & Hrun & _ & Hcount & Haverage); [reflexivity..|].
  exists w'. split; [exact Hrun|]. split; [exact Hcount|exact Haverage].
Defined.

(** Without ratings the average is the integer 0. *)
Example no_ratings :
  (Generic.RatingField_related_items_changed "rating"
     {| Generic.cls := "blog.BlogPost"; Generic.id := 7;
        Generic.attrs := Examples.post_attrs |}
     {| Generic.all := []; Generic.count_queryset := None |}
     (Examples.world_of [])).1
  = inr {| Generic.cls := "blog.BlogPost"; Generic.id := 7;
           Generic.attrs :=
             <["rating_average" := Generic.VInt 0]>
               (<["rating_count" := Generic.VInt 0]> Examples.post_attrs) |}.
Proof. reflexivity. Qed.

(** A comment of an object that is gone: the fetch raises. *)
Example comment_of_missing_object :
  (Generic._related_items_changed Examples.exact_class
     (Generic.CommentsField "blog.BlogPost" "comments" None None)
     {| Generic.sender_class := "generic.ThreadedComment";
        Generic.for_model := Some "blog.BlogPost";
        Generic.sender_object_pk := 9 |}
     Examples.comments).1
  = inl ObjectDoesNotExist.
Proof. reflexivity. Qed.

(** *** More on the signal handlers: what a signal leaves alone, and the
    same signal sent twice *)

Section GenericMore.

Import Generic.
Variable issubclass : string → string → bool.


(** Property X8. The signal about an assigned keyword, sent a second time with the
    side table unchanged, writes nothing: the object is fetched and found
    up to date. *)
Theorem KeywordsField_signal_twice (model name : string)
    (kwargs : Signalled) (w : World AssignedKeyword)
    (c : string) (a : gmap string attr_value) (current : attr_value) :
  let self := KeywordsField model name None in
  issubclass (sender_class kwargs) "generic.AssignedKeyword" = true →
  for_model kwargs = Some c →
  issubclass c model = true →
  objects w !! sender_object_pk kwargs = Some a →
  a !! (name +:+ "_string") = Some current →
  ∃ w1,
    _related_items_changed issubclass self kwargs w = (inr (), w1) ∧
    _related_items_changed issubclass self kwargs w1
      = (inr (), fetched (sender_object_pk kwargs) w1).
Proof.
  intros self Hinst Hfor Hsub Hobj Hcur.
  set (pk := sender_object_pk kwargs) in *.
  set (instance := {| cls := model; id := pk; attrs := a |}).
  set (keywords := keywords_string (related_rows instance w)).
  assert (Hagain : ∀ w1 a1,
    objects w1 !! pk = Some a1 → related w1 = related w →
    a1 !! (name +:+ "_string") = Some (VUnicode keywords) →
    _related_items_changed issubclass self kwargs w1 = (inr (), fetched pk w1)).
  { intros w1 a1 Hobj1 Hrel Ha1.
    rewrite (dispatch_handled issubclass self kwargs w1 c a1
               Hinst Hfor Hsub Hobj1). simpl.
    rewrite (KeywordsField_handler_run name
               {| cls := model; id := pk; attrs := a1 |} _ _ _ Ha1).
    cbv zeta.
    assert (keywords_string
              (all (related_manager_of self
                      (handled_instance self (sender_object_pk kwargs) a1)
                      (fetched (sender_object_pk kwargs) w1))) = keywords)
      as ->.
    { unfold keywords, related_rows. simpl. by rewrite Hrel. }
    by rewrite (proj2 (ne_unicode_false _ _) eq_refl). }
  rewrite (dispatch_handled issubclass self kwargs w c a Hinst Hfor Hsub Hobj).
  simpl. fold pk instance.
  rewrite (KeywordsField_handler_run name instance _ _ current Hcur).
  cbv zeta.
  change (keywords_string
            (all (related_manager_of self (handled_instance self pk a)
                    (fetched pk w))))
    with keywords.
  destruct (ne_unicode current keywords) eqn:Hne.
  - eexists. split; [reflexivity|].
    eapply Hagain; [simpl; apply lookup_insert_eq|reflexivity|].
    apply lookup_insert_eq.
  - apply ne_unicode_false in Hne as ->.
    eexists. split; [reflexivity|]. by eapply Hagain.
Qed.

(** Property X9. The signal about a comment, sent a second time with the side table
    unchanged, stores what the first one stored. *)
Theorem CommentsField_signal_twice {P} (model name : string)
    (count_queryset : option (list (Related P) → Z))
    (kwargs : Signalled) (w : World P)
    (c : string) (a : gmap string attr_value) :
  let self := CommentsField model name None count_queryset in
  issubclass (sender_class kwargs) "generic.ThreadedComment" = true →
  for_model kwargs = Some c →
  issubclass c model = true →
  objects w !! sender_object_pk kwargs = Some a →
  ∃ w1 w2,
    _related_items_changed issubclass self kwargs w = (inr (), w1) ∧
    _related_items_changed issubclass self kwargs w1 = (inr (), w2) ∧
    objects w2 = objects w1 ∧ related w2 = related w.
Proof.
  intros self Hinst Hfor Hsub Hobj.
  assert (Hrun : ∀ w0 a0, objects w0 !! sender_object_pk kwargs = Some a0 →
    _related_items_changed issubclass self kwargs w0 =
    (inr (),
     saved (setattr (name +:+ "_count")
              (VInt match count_queryset with
                    | Some m =>
                        m (related_rows
                             {| cls := model; id := sender_object_pk kwargs;
                                attrs := a0 |} w0)
                    | None =>
                        Z.of_nat (length (related_rows
                             {| cls := model; id := sender_object_pk kwargs;
                                attrs := a0 |} w0))
                    end)
              {| cls := model; id := sender_object_pk kwargs; attrs := a0 |})
           (fetched (sender_object_pk kwargs) w0))).
  { intros w0 a0 Hobj0.
    rewrite (dispatch_handled issubclass self kwargs w0 c a0
               Hinst Hfor Hsub Hobj0). simpl.
    unfold CommentsField_related_items_changed, related_manager_of,
      related_rows. simpl. by destruct count_queryset. }
  eexists _, _. split; [by apply Hrun|]. split.
  - apply Hrun. simpl. apply lookup_insert_eq.
  - simpl. split; [|done]. unfold related_rows. simpl.
    by rewrite insert_insert_eq, insert_insert_eq.
Qed.

End GenericMore.


Lemma KeywordsField_signal_twice_witness :
  ∃ w1,
    Generic._related_items_changed Examples.exact_class
      (Generic.KeywordsField "blog.BlogPost" "keywords" None)
      (Examples.about_post_7 "generic.AssignedKeyword") Examples.keywords
    = (inr (), w1) ∧
    Generic._related_items_changed Examples.exact_class
      (Generic.KeywordsField "blog.BlogPost" "keywords" None)
      (Examples.about_post_7 "generic.AssignedKeyword") w1
    = (inr (), Generic.fetched 7 w1).
Proof.
  apply (KeywordsField_signal_twice Examples.exact_class
           "blog.BlogPost" "keywords"
           (Examples.about_post_7 "generic.AssignedKeyword")
           Examples.keywords "blog.BlogPost" Examples.post_attrs
           (Generic.VUnicode "")); reflexivity.
Defined.

Lemma CommentsField_signal_twice_witness :
  ∃ w1 w2,
    Generic._related_items_changed Examples.exact_class
      (Generic.CommentsField "blog.BlogPost" "comments" None None)
      (Examples.about_post_7 "generic.ThreadedComment") Examples.comments
    = (inr (), w1) ∧
    Generic._related_items_changed Examples.exact_class
      (Generic.CommentsField "blog.BlogPost" "comments" None None)
      (Examples.about_post_7 "generic.ThreadedComment") w1
    = (inr (), w2) ∧
    Generic.objects w2 = Generic.objects w1 ∧
    Generic.related w2 = Generic.related Examples.comments.
Proof.
  apply (CommentsField_signal_twice Examples.exact_class
           "blog.BlogPost" "comments" None
           (Examples.about_post_7 "generic.ThreadedComment")
           Examples.comments "blog.BlogPost" Examples.post_attrs);
    reflexivity.
Defined.

(** ** The [page_menu] template tag *)

Lemma StronglySorted_filter {A} (R : relation A) (P : A → Prop)
    `{!∀ x, Decision (P x)} (l : list A) :
  StronglySorted R l → StronglySorted R (filter P l).
Proof.
  induction l as [|x l IH]; [done|].
  rewrite StronglySorted_cons, filter_cons. intros [Hx Hl].
  destruct (decide (P x)); [|by apply IH].
  apply StronglySorted_cons. split; [|by apply IH].
  apply Forall_forall. intros y [_ Hy]%list_elem_of_filter.
  by apply (proj1 (Forall_forall _ _) Hx).
Qed.

Section PageMenuFacts.

Import PageMenu.
Variable published_by_order : option string → list Row.
Variable set_menu_helpers : string → Page → Page.
Variable home_url : string.

Lemma holds_app_heap (heap extra : list Page) ls ps :
  holds heap ls ps → holds (heap ++ extra) ls ps.
Proof.
  unfold holds. intros H. eapply Forall2_impl; [exact H|].
  intros l p. apply lookup_app_l_Some.
Qed.

(** The dict groups the loaded pages by parent id, in query order. *)
Lemma collect_pages_spec (slug : string) (rows : list Row)
    (heap : list Page) :
  let loaded_pages := (λ r, set_menu_helpers slug (loaded r)) <$> rows in
  ∃ pages,
    collect_pages set_menu_helpers slug rows heap
      = (pages, heap ++ loaded_pages) ∧
    ∀ key, holds (heap ++ loaded_pages) (default [] (pages !! key))
                 (filter (λ p, parent_id (row p) = key) loaded_pages).
Proof.
  induction rows as [|r rows IH] using rev_ind.
  - exists ∅. simpl. split; [by rewrite app_nil_r|].
    intros key. rewrite lookup_empty. constructor.
  - destruct IH as (pages & Hrun & Hpages). simpl in *.
    unfold collect_pages in *. rewrite foldl_snoc, Hrun.
    set (page := set_menu_helpers slug (loaded r)).
    set (qs := (λ r, set_menu_helpers slug (loaded r)) <$> rows) in *.
    eexists. split.
    + by rewrite fmap_app, app_assoc.
    + intros key. rewrite fmap_app, filter_app, app_assoc. simpl.
      fold page. specialize (Hpages key).
      destruct (decide (parent_id (row page) = key)) as [<-|Hne].
      * rewrite lookup_insert_eq. simpl.
        rewrite filter_cons_True, filter_nil by done.
        apply Forall2_app; [by apply holds_app_heap|].
        constructor; [|constructor]. apply list_lookup_middle. done.
      * rewrite lookup_insert_ne by done.
        rewrite filter_cons_False, filter_nil, app_nil_r by done.
        by apply holds_app_heap.
Qed.

Lemma level_branch_lookup (level : Z) (branch : list nat)
    (heap : list Page) (l : nat) :
  level_branch level branch heap !! l =
  (if decide (l ∈ branch) then set_branch_level level else (λ p, p))
    <$> heap !! l.
Proof.
  revert heap. induction branch as [|b branch IH] using rev_ind; intros heap.
  - unfold level_branch. simpl foldl.
    destruct (decide (l ∈ [])) as [Hin|_]; [by apply elem_of_nil in Hin|].
    by destruct (heap !! l).
  - unfold level_branch in *. rewrite foldl_snoc.
    destruct (decide (b = l)) as [->|Hne].
    + rewrite list_lookup_alter_eq, IH.
      rewrite (decide_True (P := l ∈ branch ++ [l])) by set_solver.
      destruct (heap !! l) as [p|]; [|done]. simpl. by destruct (decide _).
    + rewrite list_lookup_alter_ne, IH by done.
      destruct (decide (l ∈ branch)).
      * rewrite decide_True by set_solver. done.
      * rewrite decide_False; [done|].
        intros [?|?%list_elem_of_singleton]%elem_of_app; congruence.
Qed.

Lemma rows_at_level_branch (level : Z) (branch ls : list nat)
    (heap : list Page) :
  rows_at (level_branch level branch heap) ls = rows_at heap ls.
Proof.
  unfold rows_at. apply list_fmap_ext. intros _ l _.
  rewrite level_branch_lookup. destruct (heap !! l) as [p|]; [|done].
  simpl. by destruct (decide _).
Qed.

Lemma holds_rows_at (heap : list Page) ls ps :
  holds heap ls ps → rows_at heap ls = (λ p, Some (row p)) <$> ps.
Proof.
  unfold holds, rows_at. induction 1 as [|l p ls ps Hl _ IH]; [done|].
  rewrite !fmap_cons, Hl. simpl. by f_equal.
Qed.

Lemma rows_of_loaded (slug : string) (rows : list Row) (k : option Z) :
  (∀ s p, row (set_menu_helpers s p) = row p) →
  row <$> filter (λ p, parent_id (row p) = k)
                 ((λ r, set_menu_helpers slug (loaded r)) <$> rows)
  = filter (λ r, parent_id r = k) rows.
Proof.
  intros Hrow. induction rows as [|r rs IH]; [done|].
  rewrite fmap_cons, !filter_cons, Hrow. simpl.
  destruct (decide (parent_id r = k)); [|done].
  rewrite fmap_cons, Hrow. simpl. by f_equal.
Qed.

(** Claim C8. A call of [page_menu] whose template name resolves returns.
    When the context holds no menu dict yet, the call stores one that
    maps each parent id to the pages, loaded from the query of published
    pages, that have this parent, in the order of the query: ascending
    [_order]. When it holds one, that dict is kept. In both cases the
    branch left in [page_branch] is the dict's list for the id of the
    parent page, or for [None] without a parent page, and the empty list
    when the dict has none; and every page of the branch has
    [branch_level] 0 without a parent page, and one more than the
    parent page's [branch_level] (0 when it has none) with one. *)
Theorem page_menu_branch (context : Context) (heap : list Page)
    (parts : list part) (given : option string) (parent_page : option Page)
    (template_name : string) :
  resolve_parts heap parts = (given, parent_page) →
  match given with
  | Some name => Some name
  | None => menu_template_name context
  end = Some template_name →
  let key := (λ page, id (row page)) <$> parent_page in
  let level := level_under parent_page in
  ∃ context' heap' pages,
    page_menu published_by_order set_menu_helpers home_url
              context heap parts = inr (context', heap') ∧
    menu_pages context' = Some pages ∧
    match menu_pages context with
    | Some stored => pages = stored
    | None =>
        let '(user, slug) := user_and_slug context in
        let loaded_pages :=
          (λ r, set_menu_helpers slug (loaded r))
            <$> published_by_order user in
        (∀ k, rows_at heap' (default [] (pages !! k)) =
              (λ p, Some (row p))
                <$> filter (λ p, parent_id (row p) = k) loaded_pages) ∧
        ((∀ s p, row (set_menu_helpers s p) = row p) →
         ∀ k, ∃ children,
           rows_at heap' (default [] (pages !! k)) = Some <$> children ∧
           children = filter (λ r, parent_id r = k)
                             (published_by_order user) ∧
           ∀ R : relation Row,
             StronglySorted R (published_by_order user) →
             StronglySorted R children)
    end ∧
    page_branch context' = Some (default [] (pages !! key)) ∧
    context_branch_level context' = Some level ∧
    ∀ l p, l ∈ default [] (pages !! key) → heap' !! l = Some p →
           branch_level p = Some level.
Proof.
  intros Hparts Hname key level. unfold page_menu. rewrite Hparts, Hname.
  assert (Hlevel : ∀ branch h l p,
            l ∈ branch → level_branch level branch h !! l = Some p →
            branch_level p = Some level).
  { intros branch h l p Hin. rewrite level_branch_lookup, decide_True by done.
    destruct (h !! l); [|done]. by intros [= <-]. }
  change (menu_pages (set_menu_template_name template_name context))
    with (menu_pages context).
  change (user_and_slug (set_menu_template_name template_name context))
    with (user_and_slug context).
  destruct (menu_pages context) as [stored|] eqn:Hstored.
  - destruct parent_page as [page|]; simpl; rewrite Hstored; simpl;
      eexists _, _, _; (split; [reflexivity|]); simpl;
      repeat split; try done; apply Hlevel.
  - destruct (user_and_slug context) as [user slug] eqn:Hus.
    destruct (collect_pages_spec slug (published_by_order user) heap)
      as (pages & -> & Hpages).
    set (loaded_pages := (λ r, set_menu_helpers slug (loaded r))
                           <$> published_by_order user) in *.
    assert (Hrows : ∀ lv br k,
      rows_at (level_branch lv br (heap ++ loaded_pages))
              (default [] (pages !! k)) =
      (λ p, Some (row p))
        <$> filter (λ p, parent_id (row p) = k) loaded_pages).
    { intros lv br k. rewrite rows_at_level_branch.
      apply holds_rows_at, Hpages. }
    assert (Hkeep : ∀ lv br,
      (∀ s p, row (set_menu_helpers s p) = row p) →
      ∀ k, ∃ children,
        rows_at (level_branch lv br (heap ++ loaded_pages))
                (default [] (pages !! k)) = Some <$> children ∧
        children = filter (λ r, parent_id r = k) (published_by_order user) ∧
        ∀ R : relation Row,
          StronglySorted R (published_by_order user) →
          StronglySorted R children).
    { intros lv br Hrow k. eexists. split; [|split; [reflexivity|]].
      - rewrite Hrows. unfold loaded_pages.
        rewrite (list_fmap_compose row Some). f_equal.
        by apply rows_of_loaded.
      - intros R. apply StronglySorted_filter. }
    destruct parent_page as [page|]; simpl;
      eexists _, _, _; (split; [reflexivity|]); simpl;
      repeat split; try done; try apply Hrows; try apply Hkeep;
      apply Hlevel.
Qed.

End PageMenuFacts.

(** *** The tag on a menu of two top-level pages, the first with two
    children *)

Lemma page_menu_branch_witness :
  ∃ context' heap' pages,
    PageMenu.page_menu Examples.published_pages Examples.note_slug "/"
      Examples.fresh_context [] [PageMenu.Unicode "menu.html"]
    = inr (context', heap') ∧
    PageMenu.menu_pages context' = Some pages ∧
    (∀ k, PageMenu.rows_at heap' (default [] (pages !! k)) =
          Some <$> filter (λ r, PageMenu.parent_id r = k)
                          (Examples.published_pages None)) ∧
    PageMenu.page_branch context' = Some (default [] (pages !! None)) ∧
    PageMenu.context_branch_level context' = Some 0 ∧
    ∀ l p, l ∈ default [] (pages !! None) → heap' !! l = Some p →
           PageMenu.branch_level p = Some 0.
Proof.
  destruct (page_menu_branch Examples.published_pages Examples.note_slug "/"
              Examples.fresh_context [] [PageMenu.Unicode "menu.html"]
              (Some "menu.html") None "menu.html")
    as (context' & heap' & pages & Hrun & Hpages & [_ Hfirst] & Hbranch
        & Hlevel & Heach); [reflexivity..|].
  exists context', heap', pages.
  split; [exact Hrun|]. split; [exact Hpages|]. split.
  - intros k. destruct (Hfirst (λ _ _, eq_refl) k) as (children & -> & -> & _).
    reflexivity.
  - split; [exact Hbranch|]. split; [exact Hlevel|exact Heach].
Defined.

(** The root call, and then the call the menu template makes for the first
    page of the root branch. *)
Example menu_root_call :
  match PageMenu.page_menu Examples.published_pages Examples.note_slug "/"
          Examples.fresh_context [] [PageMenu.Unicode "menu.html"] with
  | inr (context, heap) =>
      (PageMenu.page_branch context, PageMenu.branch_level <$> heap)
  | inl _ => (None, [])
  end
  = (Some [0; 2]%nat, [Some 0; None; Some 0; None]).
Proof. vm_compute. reflexivity. Qed.

Example menu_recursive_call :
  match PageMenu.page_menu Examples.published_pages Examples.note_slug "/"
          Examples.fresh_context [] [PageMenu.Unicode "menu.html"] with
  | inr (context, heap) =>
      match PageMenu.page_menu Examples.published_pages Examples.note_slug
              "/" context heap [PageMenu.PageRef 0] with
      | inr (context', heap') =>
          (PageMenu.page_branch context', PageMenu.branch_level <$> heap')
      | inl _ => (None, [])
      end
  | inl _ => (None, [])
  end
  = (Some [1; 3]%nat, [Some 0; Some 1; Some 0; Some 1]).
Proof. vm_compute. reflexivity. Qed.

(** Without a template name in the token or in the context the tag
    raises, and stores nothing. *)
Example menu_without_template :
  PageMenu.page_menu Examples.published_pages Examples.note_slug "/"
    Examples.fresh_context [] []
  = inl TemplateSyntaxError.
Proof. reflexivity. Qed.

(** *** More on [page_menu]: [has_children], the pages a call leaves
    alone, and where each page is listed *)

Lemma filter_ext_in {A} (P Q : A → Prop) `{!∀ x, Decision (P x)}
    `{!∀ x, Decision (Q x)} (l : list A) :
  (∀ x, x ∈ l → P x ↔ Q x) → filter P l = filter Q l.
Proof.
  induction l as [|x l IH]; intros Hext; [done|].
  rewrite !filter_cons.
  assert (filter P l = filter Q l) as ->.
  { apply IH. intros y Hy. apply Hext. by apply list_elem_of_further. }
  assert (x ∈ x :: l) as Hx by apply list_elem_of_here.
  destruct (decide (P x)) as [HP|HP], (decide (Q x)) as [HQ|HQ]; try done.
  - destruct HQ. by apply Hext.
  - destruct HP. by apply Hext.
Qed.

Section PageMenuMore.

Import PageMenu.
Variable published_by_order : option string → list Row.
Variable set_menu_helpers : string → Page → Page.
Variable home_url : string.

(** The dict holds no empty list, and each list holds the places of the
    pages with that parent, in the order they were loaded. *)
Lemma collect_pages_positions (slug : string) (rows : list Row)
    (heap : list Page) :
  let loaded_pages := (λ r, set_menu_helpers slug (loaded r)) <$> rows in
  ∃ pages,
    collect_pages set_menu_helpers slug rows heap
      = (pages, heap ++ loaded_pages) ∧
    (∀ key l, pages !! key = Some l → l ≠ []) ∧
    ∀ key,
      default [] (pages !! key) =
      filter (λ l, (λ p, parent_id (row p)) <$> (heap ++ loaded_pages) !! l
                   = Some key)
             (seq (length heap) (length rows)).
Proof.
  induction rows as [|r rows IH] using rev_ind.
  - exists ∅. simpl. split; [by rewrite app_nil_r|]. split.
    + intros key l. by rewrite lookup_empty.
    + intros key. by rewrite lookup_empty.
  - destruct IH as (pages & Hrun & Hne & Hpos). simpl in *.
    unfold collect_pages in *. rewrite foldl_snoc, Hrun.
    set (page := set_menu_helpers slug (loaded r)).
    set (qs := (λ r, set_menu_helpers slug (loaded r)) <$> rows) in *.
    assert (length (heap ++ qs) = (length heap + length rows)%nat) as Hlen.
    { unfold qs. by rewrite length_app, length_fmap. }
    eexists. split; [by rewrite fmap_app, app_assoc|]. split.
    + intros key l [[<- <-]|[_ Hl]]%lookup_insert_Some; [|by eapply Hne].
      by destruct (default [] _).
    + intros key. rewrite fmap_app, app_assoc. simpl. fold page. fold qs.
      rewrite (length_app rows), seq_app, filter_app. simpl seq.
      assert (filter
                (λ l, (λ p, parent_id (row p)) <$> ((heap ++ qs) ++ [page]) !! l
                      = Some key) (seq (length heap) (length rows))
              = default [] (pages !! key)) as ->.
      { rewrite Hpos. apply filter_ext_in. intros l Hl%elem_of_seq.
        by rewrite lookup_app_l by lia. }
      rewrite filter_cons, filter_nil, <- Hlen, list_lookup_middle by done.
      simpl. destruct (decide (parent_id (row page) = key)) as [<-|Hk].
      * rewrite lookup_insert_eq, decide_True by done. done.
      * rewrite lookup_insert_ne, decide_False, app_nil_r by congruence. done.
Qed.

Lemma length_level_branch (level : Z) (branch : list nat)
    (heap : list Page) :
  length (level_branch level branch heap) = length heap.
Proof.
  unfold level_branch. revert heap.
  induction branch as [|b bs IH]; intros heap; [done|].
  simpl. by rewrite IH, length_alter.
Qed.

(** What a call that returns has done. *)
Lemma page_menu_run (context : Context) (heap : list Page)
    (parts : list part) (given : option string) (parent_page : option Page)
    (template_name : string) :
  resolve_parts heap parts = (given, parent_page) →
  match given with
  | Some name => Some name
  | None => menu_template_name context
  end = Some template_name →
  let '(pages, heap1, home) :=
    match menu_pages context with
    | Some stored => (stored, heap, on_home context)
    | None =>
        let '(user, slug) := user_and_slug context in
        let '(pages, heap1) :=
          collect_pages set_menu_helpers slug (published_by_order user) heap in
        (pages, heap1, Some (bool_decide (slug = home_url)))
    end in
  let branch :=
    default [] (pages !! ((λ page, id (row page)) <$> parent_page)) in
  page_menu published_by_order set_menu_helpers home_url context heap parts
  = inr ({| menu_template_name := Some template_name;
            menu_pages := Some pages;
            request := request context;
            on_home := home;
            context_branch_level := Some (level_under parent_page);
            page_branch := Some branch |},
         level_branch (level_under parent_page) branch heap1).
Proof.
  intros Hparts Hname. unfold page_menu. rewrite Hparts, Hname.
  change (menu_pages (set_menu_template_name template_name context))
    with (menu_pages context).
  change (user_and_slug (set_menu_template_name template_name context))
    with (user_and_slug context).
  destruct (menu_pages context) as [stored|] eqn:Hstored.
  - destruct parent_page as [page|]; simpl; rewrite ?Hstored;
      unfold set_page_branch, set_context_branch_level,
        set_menu_template_name; simpl; rewrite ?Hstored; reflexivity.
  - rewrite ?Hstored. destruct (user_and_slug context) as [user slug].
    destruct (collect_pages _ _ _ _) as [pages heap1].
    by destruct parent_page as [page|].
Qed.

(** Property X10. After the call that builds the menu, [has_children] of a page id is
    true exactly when a loaded page has that id for its parent, which is
    when the branch the tag shows under that page is not empty. *)
Theorem page_menu_has_children (context : Context) (heap : list Page)
    (parts : list part) (given : option string) (parent_page : option Page)
    (template_name : string) :
  resolve_parts heap parts = (given, parent_page) →
  match given with
  | Some name => Some name
  | None => menu_template_name context
  end = Some template_name →
  menu_pages context = None →
  ∃ context' heap' pages,
    page_menu published_by_order set_menu_helpers home_url
              context heap parts = inr (context', heap') ∧
    menu_pages context' = Some pages ∧
    ∀ page_id,
      ∃ b, has_children context' page_id = Some b ∧
           (b = true ↔ default [] (pages !! Some page_id) ≠ []) ∧
           (b = true ↔
            ∃ r, r ∈ published_by_order (user_and_slug context).1 ∧
                 parent_id (row (set_menu_helpers (user_and_slug context).2
                                   (loaded r))) = Some page_id).
Proof.
  intros Hparts Hname Hnone.
  pose proof (page_menu_run context heap parts given parent_page
                template_name Hparts Hname) as Hrun.
  rewrite Hnone in Hrun.
  destruct (user_and_slug context) as [user slug]. simpl.
  destruct (collect_pages_positions slug (published_by_order user) heap)
    as (pages & Hcollect & Hne & _).
  destruct (collect_pages_spec set_menu_helpers slug
              (published_by_order user) heap)
    as (pages' & Hcollect' & Hholds).
  rewrite Hcollect in Hcollect'. injection Hcollect' as <-.
  rewrite Hcollect in Hrun. eexists _, _, pages. split; [exact Hrun|].
  split; [done|]. intros page_id. eexists. split; [reflexivity|].
  assert (is_Some (pages !! Some page_id)
          ↔ default [] (pages !! Some page_id) ≠ []) as Hsome.
  { destruct (pages !! Some page_id) as [l|] eqn:Hl; simpl.
    - split; [intros _; by eapply Hne|by eexists].
    - split; [by intros [? ?]|done]. }
  rewrite bool_decide_eq_true. split; [done|]. rewrite Hsome.
  specialize (Hholds (Some page_id)). apply Forall2_length in Hholds.
  split.
  - intros Hbranch.
    destruct (filter _ _) as [|p ps] eqn:Hf.
    + apply length_zero_iff_nil in Hholds. by destruct Hbranch.
    + assert (p ∈ filter (λ p, parent_id (row p) = Some page_id)
                ((λ r, set_menu_helpers slug (loaded r))
                   <$> published_by_order user)) as Hp
        by (rewrite Hf; apply list_elem_of_here).
      apply list_elem_of_filter in Hp as [Hparent Hin].
      apply list_elem_of_fmap in Hin as (r & -> & Hr). by exists r.
  - intros (r & Hr & Hparent) Hnil. rewrite Hnil in Hholds. symmetry in Hholds.
    apply length_zero_iff_nil in Hholds.
    assert (set_menu_helpers slug (loaded r)
            ∈ filter (λ p, parent_id (row p) = Some page_id)
                ((λ r, set_menu_helpers slug (loaded r))
                   <$> published_by_order user)) as Hin.
    { apply list_elem_of_filter. split; [done|].
      apply list_elem_of_fmap. by exists r. }
    rewrite Hholds in Hin. by apply elem_of_nil in Hin.
Qed.

(** Property X11. A call that returns removes no page object and changes no row and no
    menu helper: of the page objects there were, only those of the branch
    shown are written, and all that is written is their [branch_level].
    A call that finds the menu dict in the context loads no page. *)
Theorem page_menu_frame (context : Context) (heap : list Page)
    (parts : list part) (given : option string) (parent_page : option Page)
    (template_name : string) :
  resolve_parts heap parts = (given, parent_page) →
  match given with
  | Some name => Some name
  | None => menu_template_name context
  end = Some template_name →
  ∃ context' heap' branch,
    page_menu published_by_order set_menu_helpers home_url
              context heap parts = inr (context', heap') ∧
    page_branch context' = Some branch ∧
    request context' = request context ∧
    (is_Some (menu_pages context) →
     menu_pages context' = menu_pages context ∧
     length heap' = length heap) ∧
    ∀ l p, heap !! l = Some p →
      ∃ p', heap' !! l = Some p' ∧
            row p' = row p ∧ menu_helpers p' = menu_helpers p ∧
            (l ∉ branch → p' = p).
Proof.
  intros Hparts Hname.
  pose proof (page_menu_run context heap parts given parent_page
                template_name Hparts Hname) as Hrun.
  assert (Hkeep : ∀ level branch heap1 l p,
            heap1 !! l = Some p →
            ∃ p', level_branch level branch heap1 !! l = Some p' ∧
                  row p' = row p ∧ menu_helpers p' = menu_helpers p ∧
                  (l ∉ branch → p' = p)).
  { intros level branch heap1 l p Hl.
    rewrite (level_branch_lookup set_menu_helpers home_url), Hl. simpl.
    destruct (decide (l ∈ branch)); eexists; split; done. }
  destruct (menu_pages context) as [stored|] eqn:Hstored.
  - eexists _, _, _. split; [exact Hrun|]. split; [done|]. split; [done|].
    split.
    + intros _. split; [done|]. apply length_level_branch.
    + intros l p Hl. by apply Hkeep.
  - destruct (user_and_slug context) as [user slug].
    destruct (collect_pages_spec set_menu_helpers slug
                (published_by_order user) heap) as (pages & Hcollect & _).
    rewrite Hcollect in Hrun.
    eexists _, _, _. split; [exact Hrun|]. split; [done|]. split; [done|].
    split; [by intros [? ?]|].
    intros l p Hl. apply Hkeep. by apply lookup_app_l_Some.
Qed.

(** Property X12. The call that builds the menu lists every page it loads once: in the
    list of the page's parent id and in no other. *)
Theorem page_menu_lists_each_page_once (context : Context)
    (heap : list Page) (parts : list part) (given : option string)
    (parent_page : option Page) (template_name : string) :
  resolve_parts heap parts = (given, parent_page) →
  match given with
  | Some name => Some name
  | None => menu_template_name context
  end = Some template_name →
  menu_pages context = None →
  ∃ context' heap' pages,
    page_menu published_by_order set_menu_helpers home_url
              context heap parts = inr (context', heap') ∧
    menu_pages context' = Some pages ∧
    length heap' =
      (length heap
       + length (published_by_order (user_and_slug context).1))%nat ∧
    (∀ key, NoDup (default [] (pages !! key))) ∧
    ∀ l p, (length heap ≤ l)%nat → heap' !! l = Some p →
           ∀ key, l ∈ default [] (pages !! key) ↔ parent_id (row p) = key.
Proof.
  intros Hparts Hname Hnone.
  pose proof (page_menu_run context heap parts given parent_page
                template_name Hparts Hname) as Hrun.
  rewrite Hnone in Hrun.
  destruct (user_and_slug context) as [user slug]. simpl.
  destruct (collect_pages_positions slug (published_by_order user) heap)
    as (pages & Hcollect & _ & Hpos).
  rewrite Hcollect in Hrun. eexists _, _, pages. split; [exact Hrun|].
  split; [done|].
  set (loaded_pages := (λ r, set_menu_helpers slug (loaded r))
                         <$> published_by_order user) in *.
  assert (Hlen : ∀ level branch,
            length (level_branch level branch (heap ++ loaded_pages))
            = (length heap + length (published_by_order user))%nat).
  { intros level branch. rewrite length_level_branch.
    unfold loaded_pages. by rewrite length_app, length_fmap. }
  split; [apply Hlen|]. split.
  - intros key. rewrite Hpos. apply NoDup_filter, NoDup_seq.
  - intros l p Hl Hp key. rewrite Hpos, list_elem_of_filter, elem_of_seq.
    assert (l < length heap + length (published_by_order user))%nat as Hlt.
    { rewrite <- (Hlen (level_under parent_page)
                    (default [] (pages !! ((λ page, id (row page))
                                             <$> parent_page)))).
      by eapply lookup_lt_Some. }
    rewrite (level_branch_lookup set_menu_helpers home_url) in Hp.
    destruct ((heap ++ loaded_pages) !! l) as [q|] eqn:Hq; [|done].
    simpl in Hp.
    assert (parent_id (row p) = parent_id (row q)) as ->.
    { injection Hp as <-. by destruct (decide _). }
    simpl.
    split; [by intros [[= ?] _]|]. intros <-. split; [done|lia].
Qed.

End PageMenuMore.

(** Property X13. The tag takes the last string among its arguments for the template
    name and the last page for the parent page, whatever the order the
    two kinds come in. *)
Theorem resolve_parts_last (heap : list PageMenu.Page)
    (parts : list PageMenu.part) :
  PageMenu.resolve_parts heap parts =
  (last (omap (λ p, match p with
                    | PageMenu.Unicode s => Some s
                    | _ => None
                    end) parts),
   last (omap (λ p, match p with
                    | PageMenu.PageRef l => heap !! l
                    | _ => None
                    end) parts)).
Proof.
  unfold PageMenu.resolve_parts.
  induction parts as [|p parts IH] using rev_ind; [done|].
  rewrite foldl_snoc, IH, !omap_app. simpl.
  destruct p as [s|l|]; simpl.
  - by rewrite last_snoc, app_nil_r.
  - destruct (heap !! l) as [page|]; simpl.
    + by rewrite last_snoc, app_nil_r.
    + by rewrite !app_nil_r.
  - by rewrite !app_nil_r.
Qed.

Lemma page_menu_has_children_witness :
  ∃ context' heap' pages,
    PageMenu.page_menu Examples.published_pages Examples.note_slug "/"
      Examples.fresh_context [] [PageMenu.Unicode "menu.html"]
    = inr (context', heap') ∧
    PageMenu.menu_pages context' = Some pages ∧
    PageMenu.has_children context' 1 = Some true ∧
    PageMenu.has_children context' 2 = Some false.
Proof.
  destruct (page_menu_has_children Examples.published_pages
              Examples.note_slug "/" Examples.fresh_context []
              [PageMenu.Unicode "menu.html"] (Some "menu.html") None
              "menu.html")
    as (context' & heap' & pages & Hrun & Hpages & Hchildren);
    [reflexivity..|].
  exists context', heap', pages. split; [exact Hrun|]. split; [exact Hpages|].
  split.
  - destruct (Hchildren 1) as (b & -> & _ & Hb). f_equal. apply Hb.
    exists {| PageMenu.id := 3; PageMenu.parent_id := Some 1;
              PageMenu._order := Some 0 |}.
    split; [|reflexivity]. apply list_elem_of_further, list_elem_of_here.
  - destruct (Hchildren 2) as (b & -> & _ & Hb). f_equal.
    destruct b; [|reflexivity].
    destruct (proj1 Hb eq_refl) as (r & Hr & Hparent).
    simpl in Hr. unfold Examples.published_pages in Hr.
    repeat (apply elem_of_cons in Hr as [->|Hr];
            [vm_compute in Hparent; discriminate Hparent|]).
    by apply elem_of_nil in Hr.
Defined.

Lemma page_menu_frame_witness :
  ∃ context' heap' branch,
    PageMenu.page_menu Examples.published_pages Examples.note_slug "/"
      Examples.fresh_context
      [PageMenu.loaded {| PageMenu.id := 9; PageMenu.parent_id := None;
                          PageMenu._order := None |}]
      [PageMenu.Unicode "menu.html"]
    = inr (context', heap') ∧
    PageMenu.page_branch context' = Some branch ∧
    ∃ p', heap' !! 0%nat = Some p' ∧
          PageMenu.row p' = {| PageMenu.id := 9; PageMenu.parent_id := None;
                               PageMenu._order := None |}.
Proof.
  destruct (page_menu_frame Examples.published_pages Examples.note_slug "/"
              Examples.fresh_context
              [PageMenu.loaded {| PageMenu.id := 9; PageMenu.parent_id := None;
                                  PageMenu._order := None |}]
              [PageMenu.Unicode "menu.html"] (Some "menu.html") None
              "menu.html")
    as (context' & heap' & branch & Hrun & Hbranch & _ & _ & Hkeep);
    [reflexivity..|].
  exists context', heap', branch. split; [exact Hrun|]. split; [exact Hbranch|].
  destruct (Hkeep 0%nat _ eq_refl) as (p' & Hp' & Hrow & _).
  exists p'. split; [exact Hp'|exact Hrow].
Defined.

Lemma page_menu_lists_each_page_once_witness :
  ∃ context' heap' pages,
    PageMenu.page_menu Examples.published_pages Examples.note_slug "/"
      Examples.fresh_context [] [PageMenu.Unicode "menu.html"]
    = inr (context', heap') ∧
    PageMenu.menu_pages context' = Some pages ∧
    length heap' = 4%nat ∧
    ∀ key, NoDup (default [] (pages !! key)).
Proof.
  destruct (page_menu_lists_each_page_once Examples.published_pages
              Examples.note_slug "/" Examples.fresh_context []
              [PageMenu.Unicode "menu.html"] (Some "menu.html") None
              "menu.html")
    as (context' & heap' & pages & Hrun & Hpages & Hlen & Hnodup & _);
    [reflexivity..|].
  exists context', heap', pages. split; [exact Hrun|]. split; [exact Hpages|].
  split; [exact Hlen|exact Hnodup].
Defined.

(** ** [Displayable.description_from_content] *)

Lemma substring_all (s : string) : String.substring 0 (String.length s) s = s.
Proof. induction s as [|c s IH]; [done|]. simpl. by rewrite IH. Qed.

Lemma substring_after (e a : string) :
  String.substring (String.length e)
    (String.length (e +:+ a) - String.length e) (e +:+ a) = a.
Proof.
  induction e as [|c e IH].
  - rewrite append_nil_l, Nat.sub_0_r. apply substring_all.
  - rewrite append_cons. simpl. apply IH.
Qed.

Lemma prefix_append (e s : string) :
  String.prefix e s = true ↔ ∃ a, s = e +:+ a.
Proof.
  revert s. induction e as [|c e IH]; intros s.
  - split; [intros _; by exists s|]. by destruct s.
  - destruct s as [|c' s]; simpl.
    + split; [done|]. intros [a Ha]. by rewrite append_cons in Ha.
    + destruct (ascii_dec c c') as [<-|Hne].
      * rewrite IH. split; intros [a Ha]; exists a.
        -- by rewrite append_cons, Ha.
        -- rewrite append_cons in Ha. by injection Ha.
      * split; [done|]. intros [a Ha]. rewrite append_cons in Ha.
        injection Ha as ? _. congruence.
Qed.

Lemma length_append (s1 s2 : string) :
  String.length (s1 +:+ s2) = (String.length s1 + String.length s2)%nat.
Proof. induction s1 as [|c s1 IH]; [done|]. rewrite append_cons. simpl. by rewrite IH. Qed.

Lemma split_first_cons (sep : string) (c : ascii) (s : string) :
  Displayable.split_first sep (String c s) =
  if String.prefix sep (String c s) then
    Some ("", String.substring (String.length sep)
                (String.length (String c s) - String.length sep)
                (String c s))
  else
    match Displayable.split_first sep s with
    | Some (before, after) => Some (String c before, after)
    | None => None
    end.
Proof. reflexivity. Qed.

(** [split_first] cuts at the first place the separator occurs. *)
Lemma split_first_Some (sep s before after : string) :
  sep ≠ "" →
  Displayable.split_first sep s = Some (before, after) →
  s = before +:+ sep +:+ after ∧
  ∀ before' after', s = before' +:+ sep +:+ after' →
                    (String.length before ≤ String.length before')%nat.
Proof.
  intros Hsep. revert before after.
  induction s as [|c s IH]; intros before after.
  - by destruct sep.
  - rewrite split_first_cons.
    destruct (String.prefix sep (String c s)) eqn:Hp.
    + apply prefix_append in Hp as [a Ha].
      rewrite Ha, substring_after. intros [= <- <-].
      rewrite append_nil_l. split; [done|]. intros; simpl; lia.
    + destruct (Displayable.split_first sep s) as [[b a]|] eqn:Hs; [|done].
      intros [= <- <-]. destruct (IH b a eq_refl) as [-> Hfirst].
      split; [by rewrite append_cons|].
      intros [|c' b'] a' Heq.
      * rewrite append_nil_l in Heq.
        assert (String.prefix sep (String c (b +:+ sep +:+ a)) = true) as Hp'
          by (apply prefix_append; by exists a').
        congruence.
      * rewrite append_cons in Heq. injection Heq as _ Heq. simpl.
        apply le_n_S. by eapply Hfirst.
Qed.

Lemma split_first_None (sep s : string) :
  Displayable.split_first sep s = None → ¬ Displayable.occurs sep s.
Proof.
  induction s as [|c s IH]; [|rewrite split_first_cons].
  - destruct sep as [|c e]; [done|]. intros _ (b & a & Heq).
    destruct b; [|by rewrite append_cons in Heq].
    by rewrite append_nil_l, append_cons in Heq.
  - destruct (String.prefix sep (String c s)) eqn:Hp; [done|].
    destruct (Displayable.split_first sep s) as [[b a]|] eqn:Hs; [done|].
    intros _ (b & a & Heq). destruct b as [|c' b].
    + rewrite append_nil_l in Heq.
      assert (String.prefix sep (String c s) = true)
        by (apply prefix_append; by exists a).
      congruence.
    + rewrite append_cons in Heq. injection Heq as _ Heq.
      apply IH; [done|]. by exists b, a.
Qed.

Section DescriptionFacts.

Import Displayable.
Variable truncatewords_html : string → nat → string.

Lemma read_fields_filled (of_type : Field → bool) (fields : list Field)
    (description : option string) (v : string) :
  first_filled of_type fields = Some v →
  read_fields of_type fields description = Some v ∧
  truthy (Some v) = true.
Proof.
  unfold first_filled. revert description.
  induction fields as [|f fields IH]; intros description; [done|].
  cbn [list_find read_fields].
  destruct (decide _) as [(Ht & Hn & Hv)|Hno].
  - simpl. intros Hval.
    rewrite Ht, (bool_decide_eq_false_2 _ Hn). simpl. rewrite Hv.
    split; [done|]. by rewrite Hval in Hv.
  - destruct (list_find _ fields) as [[i g]|] eqn:Hfind; [|done].
    simpl. intros Hg.
    destruct (of_type f && negb (bool_decide (name f = "description")))
      eqn:Hmatch; [|by apply IH].
    destruct (truthy (value f)) eqn:Hv; [|by apply IH].
    destruct Hno. apply andb_true_iff in Hmatch as [? Hd].
    apply negb_true_iff, bool_decide_eq_false in Hd. done.
Qed.

Lemma read_fields_unfilled (of_type : Field → bool) (fields : list Field)
    (description : option string) :
  first_filled of_type fields = None →
  truthy description = false →
  truthy (read_fields of_type fields description) = false.
Proof.
  unfold first_filled. revert description.
  induction fields as [|f fields IH]; intros description; [done|].
  cbn [list_find read_fields].
  destruct (decide _) as [(Ht & Hn & Hv)|Hno].
  - simpl. intros Hnone. destruct (value f) as [s|]; [|done].
    simpl in Hv. done.
  - destruct (list_find _ fields) as [[i g]|] eqn:Hfind.
    + simpl. intros Hg Hd.
      destruct (of_type f && negb (bool_decide (name f = "description")))
        eqn:Hmatch; [|by apply IH].
      destruct (truthy (value f)) eqn:Hv; [|by apply IH].
      destruct Hno. apply andb_true_iff in Hmatch as [? Hd'].
      apply negb_true_iff, bool_decide_eq_false in Hd'. done.
    + simpl. intros _ Hd.
      destruct (of_type f && negb (bool_decide (name f = "description")))
        eqn:Hmatch; [|by apply IH].
      destruct (truthy (value f)) eqn:Hv; [|by apply IH].
      destruct Hno. apply andb_true_iff in Hmatch as [? Hd'].
      apply negb_true_iff, bool_decide_eq_false in Hd'. done.
Qed.

(** Property X14. The text the description is cut from is that of the first rich text
    field that holds text; when there is none, that of the first text
    field that holds text; when there is none either, the title. Fields
    are taken in the order of the model, and the field [description]
    never counts. *)
Theorem content_or_title_choice (fields : list Field) (title : string) :
  content_or_title fields title =
  match first_filled is_rich_text fields with
  | Some v => v
  | None =>
      match first_filled is_text fields with
      | Some v => v
      | None => title
      end
  end.
Proof.
  unfold content_or_title. cbn [foldl].
  change (truthy (Some "")) with false. cbv iota.
  destruct (first_filled is_rich_text fields) as [v|] eqn:Hrich.
  - destruct (read_fields_filled is_rich_text fields (Some "") v Hrich)
      as [-> Hv]. by rewrite Hv, Hv.
  - pose proof (read_fields_unfilled is_rich_text fields (Some "") Hrich
                  eq_refl) as Hfalse.
    rewrite Hfalse.
    destruct (first_filled is_text fields) as [v|] eqn:Htext.
    + destruct (read_fields_filled is_text fields
                  (read_fields is_rich_text fields (Some "")) v Htext)
        as [-> Hv]. by rewrite Hv.
    + by rewrite (read_fields_unfilled is_text fields _ Htext Hfalse).
Qed.

(** The cut, for any list of ends that are not empty: the result is the
    text up to and including the first occurrence of the first end of
    the list that occurs in it, and the truncation to 100 words when no
    end occurs. *)
Lemma first_paragraph_of_cut (es : list string) (d : string) :
  Forall (λ e, e ≠ "") es →
  (∃ tried e later before after,
     es = tried ++ e :: later ∧
     Forall (λ e', ¬ occurs e' d) tried ∧
     d = before +:+ e +:+ after ∧
     first_paragraph_of truncatewords_html es d = before +:+ e ∧
     ∀ before' after', d = before' +:+ e +:+ after' →
                       (String.length before ≤ String.length before')%nat)
  ∨ (Forall (λ e', ¬ occurs e' d) es ∧
     first_paragraph_of truncatewords_html es d = truncatewords_html d 100).
Proof.
  induction es as [|e es IH]; intros Hne.
  - right. by split.
  - apply Forall_cons in Hne as [He Hes]. cbn [first_paragraph_of].
    destruct (split_first e d) as [[before after]|] eqn:Hsplit.
    + left. destruct (split_first_Some e d before after He Hsplit)
        as [Hd Hfirst].
      exists [], e, es, before, after. by repeat split.
    + apply split_first_None in Hsplit.
      destruct (IH Hes) as
        [(tried & e' & later & before & after & -> & Htried & Hd & Hcut & Hfirst)
        |[Hnone Hcut]].
      * left. exists (e :: tried), e', later, before, after.
        split; [done|]. split; [by constructor|]. by repeat split.
      * right. split; [by constructor|done].
Qed.

(** Property X15. The description made from the content is the chosen text up to and
    including the first [</p>]; when the text has none, up to and
    including the first [<br />], then the first line break, then the
    first full stop followed by a space; and the chosen text truncated to
    100 words when it has none of them. *)
Theorem description_from_content_cut (fields : list Field) (title : string) :
  let d := content_or_title fields title in
  (∃ tried e later before after,
     ends = tried ++ e :: later ∧
     Forall (λ e', ¬ occurs e' d) tried ∧
     d = before +:+ e +:+ after ∧
     description_from_content truncatewords_html fields title
       = before +:+ e ∧
     ∀ before' after', d = before' +:+ e +:+ after' →
                       (String.length before ≤ String.length before')%nat)
  ∨ (Forall (λ e', ¬ occurs e' d) ends ∧
     description_from_content truncatewords_html fields title
       = truncatewords_html d 100).
Proof.
  intros d. unfold description_from_content. fold d.
  apply first_paragraph_of_cut. unfold ends.
  repeat constructor; discriminate.
Qed.

End DescriptionFacts.

(** ** The comment tags *)

Lemma group_by_parent_lookup (queryset : list CommentTags.Comment)
    (key : option Z) :
  default [] (CommentTags.group_by_parent queryset !! key)
  = filter (λ c, CommentTags.replied_to_id c = key) queryset.
Proof.
  unfold CommentTags.group_by_parent.
  induction queryset as [|c queryset IH] using rev_ind; [done|].
  rewrite foldl_snoc, filter_app. cbv zeta.
  destruct (decide (CommentTags.replied_to_id c = key)) as [<-|Hne].
  - rewrite lookup_insert_eq. simpl. rewrite IH.
    by rewrite filter_cons_True, filter_nil.
  - rewrite lookup_insert_ne, IH by done.
    by rewrite filter_cons_False, filter_nil, app_nil_r.
Qed.

Lemma group_by_parent_empty (queryset : list CommentTags.Comment) :
  CommentTags.group_by_parent queryset = ∅ ↔ queryset = [].
Proof.
  split; [|by intros ->].
  destruct queryset as [|c queryset] using rev_ind; [done|].
  unfold CommentTags.group_by_parent. rewrite foldl_snoc. cbv zeta.
  intros H. by apply insert_non_empty in H.
Qed.

Section CommentThreadFacts.

Import CommentTags.
Variable visible : list Comment → list Comment.
Variable int : string → option Z.


(** Every comment the first call groups is in one thread only, that of
    the comment it replies to, and once if the queryset holds it once. *)
Theorem comment_thread_lists_each_comment (queryset : list Comment)
    (c : Comment) (key : option Z) :
  c ∈ default [] (group_by_parent queryset !! key)
  ↔ c ∈ queryset ∧ replied_to_id c = key.
Proof.
  rewrite group_by_parent_lookup, list_elem_of_filter. tauto.
Qed.

End CommentThreadFacts.

Global Instance newer_transitive {A} : Transitive (@CommentTags.newer A).
Proof. intros x y z. unfold CommentTags.newer. lia. Qed.

Global Instance newer_total {A} : Total (@CommentTags.newer A).
Proof. intros x y. unfold CommentTags.newer. lia. Qed.

Lemma sorted_by_distinct_ids {A} (l : list (Z * A)) :
  NoDup l.*1 →
  StronglySorted CommentTags.newer l →
  StronglySorted (λ x y, y.1 < x.1) l.
Proof.
  induction l as [|x l IH]; intros Hnd Hs; [constructor|].
  apply NoDup_cons in Hnd as [Hx Hnd].
  apply StronglySorted_cons in Hs as [Hall Hs].
  apply StronglySorted_cons. split; [|by apply IH].
  apply Forall_forall. intros y Hy.
  pose proof (proj1 (Forall_forall _ _) Hall y Hy) as Hle.
  unfold CommentTags.newer in Hle.
  assert (y.1 ≠ x.1); [|lia].
  intros Heq. apply Hx. rewrite <- Heq. apply list_elem_of_fmap. by exists y.
Qed.

(** Property X17. [recent_comments] with a bound that is not negative gives the rows
    with the greatest ids, greatest first: as many as the bound, or all
    the table has when it has fewer; every row it leaves out has a
    smaller id than every row it gives. *)
Theorem recent_comments_newest {A} (table : gmap Z A) (latest : Z) :
  0 ≤ latest →
  ∃ l,
    CommentTags.recent_comments table latest = inr l ∧
    length l = Nat.min (Z.to_nat latest) (size table) ∧
    (∀ x, x ∈ l → table !! x.1 = Some x.2) ∧
    StronglySorted (λ x y, y.1 < x.1) l ∧
    ∀ k a, table !! k = Some a → (k, a) ∉ l → ∀ x, x ∈ l → k < x.1.
Proof.
  intros Hlatest. unfold CommentTags.recent_comments.
  rewrite decide_False by lia. eexists. split; [done|].
  set (L := merge_sort CommentTags.newer (map_to_list table)).
  assert (L ≡ₚ map_to_list table) as Hperm by apply merge_sort_Permutation.
  assert (StronglySorted (λ x y : Z * A, y.1 < x.1) L) as Hsorted.
  { apply sorted_by_distinct_ids.
    - rewrite Hperm. apply NoDup_fst_map_to_list.
    - apply StronglySorted_merge_sort; apply _. }
  set (n := Z.to_nat latest).
  rewrite <- (take_drop n L) in Hsorted.
  apply StronglySorted_app in Hsorted as (Hcross & Htake & _).
  split; [|split; [|split; [done|]]].
  - by rewrite length_take, Hperm, length_map_to_list.
  - intros [k a] Hx. apply elem_of_map_to_list. rewrite <- Hperm.
    apply elem_of_take in Hx as (i & Hi & _). by eapply list_elem_of_lookup_2.
  - intros k a Hk Hout x Hx.
    assert ((k, a) ∈ L) as Hin by (rewrite Hperm; by apply elem_of_map_to_list).
    rewrite <- (take_drop n L) in Hin.
    apply elem_of_app in Hin as [Hin|Hin]; [done|].
    apply (Hcross x (k, a) Hx Hin).
Qed.

(** *** The tags on a post with three comments, for a reader who is not
    staff *)


Lemma recent_comments_newest_witness :
  ∃ l,
    CommentTags.recent_comments MoreExamples.comment_table 2 = inr l ∧
    length l = 2%nat ∧
    ∀ x, x ∈ l → 3 < x.1.
Proof.
  destruct (recent_comments_newest MoreExamples.comment_table 2)
    as (l & Hrun & Hlen & _ & _ & Hout); [lia|].
  exists l. split; [exact Hrun|]. split; [exact Hlen|].
  apply (Hout 3 "third"); [reflexivity|].
  vm_compute in Hrun. injection Hrun as <-.
  intros [[=]|[[=]|[]%elem_of_nil]%elem_of_cons]%elem_of_cons.
Defined.

Example recent_two :
  CommentTags.recent_comments MoreExamples.comment_table 2
  = inr [(10, "tenth"); (7, "seventh")].
Proof. vm_compute. reflexivity. Qed.

Example recent_negative :
  CommentTags.recent_comments MoreExamples.comment_table (-1)
  = inl AssertionError.
Proof. reflexivity. Qed.

(** A posted [replied_to] that is no number: the tag raises. *)
Example comment_thread_bad_post :
  CommentTags.comment_thread MoreExamples.hide_third MoreExamples.no_int
    {| CommentTags.all_comments := None;
       CommentTags.request :=
         Some {| CommentTags.is_staff := true;
                 CommentTags.POST := {[ "replied_to" := "x" ]} |};
       CommentTags.comments_for_thread := None;
       CommentTags.no_comments := None;
       CommentTags.replied_to := None |}
    MoreExamples.post
  = inl CommentTags.PostedValueError.
Proof. reflexivity. Qed.

(** *** The description of a page with a plain summary and rich content *)

Example description_from_rich_content :
  Displayable.description_from_content MoreExamples.truncate_none
    MoreExamples.content_fields "Title"
  = "<p>Rich. Text</p>".
Proof. vm_compute. reflexivity. Qed.

Example description_from_title :
  Displayable.description_from_content MoreExamples.truncate_none [] "Title"
  = "Title".
Proof. vm_compute. reflexivity. Qed.
